(** * Hooks cheat sheet: a shallow embedding of [HooksCheetSheet.tsx]

    The file under study is a catalogue of fifteen numbered React examples.
    Each example is a function component: a function from the hook memory
    React keeps for it (and the ambient contexts) to an element tree, which
    calls hooks on the way.  The embedding keeps that shape:

    - JavaScript values that the examples handle dynamically ([response],
      [item], the content of a ref) are the inductive [value]; values whose
      TypeScript type is fixed by the code ([count : number], the reducer's
      state and action, the text of an input) are Rocq values of that type.
      Numbers are the binary64 doubles of JavaScript, with the arithmetic
      of the Standard Library's specification of IEEE 754.
    - A render is a computation in [Render]: a writer of the events the
      render performs in order (hook calls, console output, effects handed
      to React) with exceptions.
    - Closures (event handlers, effect callbacks, [fetchDataFromAPI]) are
      programs of the small instruction type [async], run by [run] against
      an oracle for the network. *)

From stdpp Require Import base option list strings gmap.
From Stdlib Require Import ZArith Lia.
From Stdlib Require Import Floats.SpecFloat.

Set Warnings "-register-all".
Open Scope string_scope.
Open Scope list_scope.
Open Scope Z_scope.

(** ** JavaScript numbers

    A number is a double: a signed zero, a signed infinity, [NaN], or a
    finite [m * 2 ^ e].  [+], [-] and [*] round to the nearest double, ties
    to even; an integer literal is the double nearest to it. *)

Definition number : Type := spec_float.

#[global] Instance number_eq_dec : EqDecision number.
Proof. solve_decision. Defined.

Definition js_add : number → number → number := SFadd 53 1024.
Definition js_sub : number → number → number := SFsub 53 1024.
Definition js_mul : number → number → number := SFmul 53 1024.
Definition js_lit (z : Z) : number := binary_normalize 53 1024 z 0 false.
Arguments js_add : simpl never.
Arguments js_sub : simpl never.
Arguments js_mul : simpl never.
Arguments js_lit : simpl never.

(** The integers every double around which is an integer too. *)
Definition safe (z : Z) : Prop := - 2 ^ 53 < z < 2 ^ 53.

(** The mantissa [p] with [n] zero bits appended, and the double that is the
    integer [p] with the sign [s] when [p] has at most 53 bits. *)
Definition shift_left (p : positive) (n : Z) : positive :=
  match n with
  | Zpos d => Pos.iter xO p d
  | _ => p
  end.

Definition canonical64 (s : bool) (p : positive) : number :=
  S754_finite s (shift_left p (53 - Zpos (digits2_pos p)))
    (Zpos (digits2_pos p) - 53).

Definition int_of_sign (s : bool) (p : positive) : Z :=
  if s then Zneg p else Zpos p.

(** ** JavaScript values *)

(** What [fetch] resolves with: a [Response], of which the model keeps the
    status line and the unparsed body text. *)
Record response := Response { status : Z; body_text : string }.

Inductive value : Type :=
| VUndefined
| VNull
| VBool (b : bool)
| VNum (n : number)
| VStr (s : string)
| VArr (items : list value)
| VObj (fields : list (string * value))
| VResponse (r : response)
| VInput (text : string).

(** The exceptions of the model: the [TypeError] of reading a property of
    [undefined] or [null], the [TypeError] of calling what is not a
    function, the rejection of a [fetch], the rejection of [json()] on a
    body that is not JSON, and what [use] throws to suspend a render. *)
Inductive error : Type :=
| TypeError_read (prop : string)
| TypeError_call (prop : string)
| FetchFailed
| SyntaxError_json
| SuspenseException.

Inductive result (A : Type) : Type :=
| Ok (a : A)
| Throw (e : error).
Arguments Ok {A} a.
Arguments Throw {A} e.

#[global] Instance result_ret : MRet result := @Ok.
#[global] Instance result_bind : MBind result := λ A B f m,
  match m with
  | Ok a => f a
  | Throw e => Throw e
  end.

(** The property names the examples read off a dynamic value:
    [response.data], [item.name] and [refExample.current.value]. *)
Inductive key : Type := Kdata | Kname | Kvalue.

Definition key_name (k : key) : string :=
  match k with
  | Kdata => "data"
  | Kname => "name"
  | Kvalue => "value"
  end.

Fixpoint assoc {A : Type} (k : string) (l : list (string * A)) : option A :=
  match l with
  | [] => None
  | (k', a) :: l' => if String.eqb k k' then Some a else assoc k l'
  end.

(** [v.k]: reading a property of [undefined] or [null] throws; an object
    answers with its field; an input element has [value] (its text) and
    [name] (empty: the example's input carries no [name] attribute); no
    other value has a property of one of the three names, and the read gives
    [undefined]. *)
Definition get_prop (v : value) (k : key) : result value :=
  match v with
  | VUndefined | VNull => Throw (TypeError_read (key_name k))
  | VObj fields => Ok (default VUndefined (assoc (key_name k) fields))
  | VInput text =>
      match k with
      | Kvalue => Ok (VStr text)
      | Kname => Ok (VStr "")
      | Kdata => Ok VUndefined
      end
  | VBool _ | VNum _ | VStr _ | VArr _ | VResponse _ => Ok VUndefined
  end.

Fixpoint mapM {A B : Type} (f : A → result B) (l : list A) : result (list B) :=
  match l with
  | [] => Ok []
  | a :: l' => b ← f a; bs ← mapM f l'; mret (b :: bs)
  end.

(** [recv.map(cb)].  The member access throws on [undefined] and [null];
    an array maps the callback over its items in order; any other value has
    no callable [map] and the call throws. *)
Definition call_map {B : Type} (recv : value) (cb : value → result B)
  : result (list B) :=
  match recv with
  | VUndefined | VNull => Throw (TypeError_read "map")
  | VArr items => mapM cb items
  | _ => Throw (TypeError_call "map")
  end.

(** JavaScript truthiness, as the conditional operator tests it. *)
Definition truthy (v : value) : bool :=
  match v with
  | VUndefined | VNull => false
  | VBool b => b
  | VNum (S754_zero _) | VNum S754_nan => false
  | VNum _ => true
  | VStr s => negb (String.eqb s "")
  | VArr _ | VObj _ | VResponse _ | VInput _ => true
  end.

(** ** Closures: the bodies of handlers, effects and async functions *)

(** The two operations on the outside world the file performs:
    [fetch(url)], which resolves with a [Response], and [res.json()], which
    resolves with the parsed body. *)
Inductive io : Type → Type :=
| Fetch (url : string) : io response
| Json (res : response) : io value.

Inductive io_name : Type :=
| OpFetch (url : string)
| OpJson.

Definition io_name_of {T : Type} (op : io T) : io_name :=
  match op with
  | Fetch url => OpFetch url
  | Json _ => OpJson
  end.

Inductive settled (T : Type) : Type :=
| Resolved (x : T)
| Rejected (e : error).
Arguments Resolved {T} x.
Arguments Rejected {T} e.

(** How the outside world settles each promise. *)
Definition world : Type := ∀ T : Type, io T → settled T.

(** A function body over the component state [S] that its setter writes. *)
Inductive async (S : Type) : Type :=
| Return (v : value)
| ReturnCleanup (cleanup : async S)
| Await {T : Type} (op : io T) (k : T → async S)
| SetState (update : S → S) (k : async S)
| ConsoleLog (msg : string) (k : async S).
Arguments Return {S} v.
Arguments ReturnCleanup {S} cleanup.
Arguments Await {S T} op k.
Arguments SetState {S} update k.
Arguments ConsoleLog {S} msg k.

Inductive fn_kind : Type := SyncFn | AsyncFn.

Record func (A S : Type) : Type := Func { kind : fn_kind; body : A → async S }.
Arguments Func {A S} kind body.
Arguments kind {A S} f.
Arguments body {A S} f.

(** What a call evaluates to. *)
Inductive returned (S : Type) : Type :=
| RValue (v : value)
| RFunction (f : async S)
| RPromise (task : async S).
Arguments RValue {S} v.
Arguments RFunction {S} f.
Arguments RPromise {S} task.

Record outcome (S : Type) : Type := Outcome {
  final : S;
  ops : list io_name;
  console : list string;
  completion : result (returned S)
}.
Arguments Outcome {S} final ops console completion.
Arguments final {S} o.
Arguments ops {S} o.
Arguments console {S} o.
Arguments completion {S} o.

(** Running a body to completion: [await] takes the world's answer, and a
    rejected promise makes the [await] throw. *)
Fixpoint run {S : Type} (w : world) (p : async S) (s : S) : outcome S :=
  match p with
  | Return v => Outcome s [] [] (Ok (RValue v))
  | ReturnCleanup c => Outcome s [] [] (Ok (RFunction c))
  | Await op k =>
      match w _ op with
      | Resolved x =>
          let o := run w (k x) s in
          Outcome (final o) (io_name_of op :: ops o) (console o) (completion o)
      | Rejected e => Outcome s [io_name_of op] [] (Throw e)
      end
  | SetState update k => run w k (update s)
  | ConsoleLog msg k =>
      let o := run w k s in
      Outcome (final o) (ops o) (msg :: console o) (completion o)
  end.

(** Calling a function: an [async] function returns a promise of its body at
    once, whatever the body does; another function runs its body and returns
    what the body returns.  (The [async] functions of the file write no
    state before their first [await]; what the promise does later is [run]
    on its task.) *)
Definition call {A S : Type} (f : func A S) (a : A) (w : world) (s : S)
  : S * result (returned S) :=
  match kind f with
  | AsyncFn => (s, Ok (RPromise (body f a)))
  | SyncFn => let o := run w (body f a) s in (final o, completion o)
  end.

(** The setter of a state cell and the dispatcher of a reducer cell. *)
Definition setState {S : Type} (v : S) (k : async S) : async S :=
  SetState (λ _, v) k.

Definition dispatch {S Act : Type} (reducer : S → Act → S) (a : Act)
  (k : async S) : async S :=
  SetState (λ s, reducer s a) k.

(** What React accepts as the return of an effect callback: nothing, or the
    cleanup function. *)
Definition accepted_by_effect {S : Type} (r : returned S) : bool :=
  match r with
  | RValue VUndefined => true
  | RFunction _ => true
  | _ => false
  end.

(** ** Elements *)

(** The event object handed to a handler; [onChange] reads
    [e.target.value]. *)
Record dom_event := DomEvent { target_value : string }.

Definition handler (S : Type) : Type := func dom_event S.

Inductive attr (S : Type) : Type :=
| AStr (s : string)
| AHandler (f : handler S)
| ARef.
Arguments AStr {S} s.
Arguments AHandler {S} f.
Arguments ARef {S}.

(** A context object: [createContext(defaultValue)]. *)
Record context := Context { context_id : string; defaultValue : string }.

Definition createContext (id : string) (defaultValue : string) : context :=
  Context id defaultValue.

(** The component elements the file writes: [<ChildComponent onClick=.. />]
    and [<ChildComponentContext />]. *)
Inductive child_call (S : Type) : Type :=
| Call_ChildComponent (onClick : handler S)
| Call_ChildComponentContext.
Arguments Call_ChildComponent {S} onClick.
Arguments Call_ChildComponentContext {S}.

Inductive element (S : Type) : Type :=
| Text (s : string)
| Num (n : number)
| Expr (v : value)
| Items (l : list (element S))
| Tag (name : string) (attrs : list (string * attr S))
      (children : list (element S))
| Provider (c : context) (v : string) (children : list (element S))
| Comp (c : child_call S).
Arguments Text {S} s.
Arguments Num {S} n.
Arguments Expr {S} v.
Arguments Items {S} l.
Arguments Tag {S} name attrs children.
Arguments Provider {S} c v children.
Arguments Comp {S} c.

Definition attrs_of {S : Type} (e : element S) : list (string * attr S) :=
  match e with
  | Tag _ attrs _ => attrs
  | _ => []
  end.

Definition children_of {S : Type} (e : element S) : list (element S) :=
  match e with
  | Tag _ _ children | Provider _ _ children | Items children => children
  | _ => []
  end.

(** The descendant reached by a path of child positions. *)
Fixpoint descendant {S : Type} (path : list nat) (e : element S)
  : option (element S) :=
  match path with
  | [] => Some e
  | i :: path' =>
      match children_of e !! i with
      | Some c => descendant path' c
      | None => None
      end
  end.

(** ** Renders *)

Inductive hook_name : Type :=
| HuseState | HuseReducer | HuseSyncExternalStore
| HuseEffect | HuseLayoutEffect | HuseInsertionEffect
| HuseRef | HuseMemo | HuseCallback | HuseContext
| HuseTransition | HuseDeferredValue | HuseDebugValue | HuseId | Huse.

(** An effect as the render hands it to React: the callback and the
    dependency array ([None] when the call passes none). *)
Record effect (S : Type) : Type := Effect {
  phase : hook_name;
  create : func unit S;
  deps : option (list value)
}.
Arguments Effect {S} phase create deps.
Arguments phase {S} e.
Arguments create {S} e.
Arguments deps {S} e.

(** A promise: the task whose end settles it, and the status [use] reads
    off it. *)
Inductive promise_status : Type :=
| Pending
| Fulfilled (v : value)
| Failed (e : error).

Record promise (S : Type) : Type := Promise {
  task_of : async S;
  status_of : promise_status
}.
Arguments Promise {S} task_of status_of.
Arguments task_of {S} p.
Arguments status_of {S} p.

Inductive event (S : Type) : Type :=
| HookCall (h : hook_name)
| Schedule (e : effect S)
| Transition (f : func unit S)
| Print (msg : string)
| Awaiting (p : promise S).
Arguments HookCall {S} h.
Arguments Schedule {S} e.
Arguments Transition {S} f.
Arguments Print {S} msg.
Arguments Awaiting {S} p.

(** A render: the events it performed, in order, and its value or the
    exception that ended it. *)
Definition Render (S A : Type) : Type := list (event S) * result A.

#[global] Instance Render_ret {S : Type} : MRet (Render S) := λ A a, ([], Ok a).
#[global] Instance Render_bind {S : Type} : MBind (Render S) := λ A B f m,
  match m with
  | (t, Ok a) => let '(t', r) := f a in (t ++ t', r)
  | (t, Throw e) => (t, Throw e)
  end.

Definition tell {S : Type} (t : list (event S)) : Render S unit := (t, Ok tt).

Definition lift {S A : Type} (r : result A) : Render S A := ([], r).

Definition trace {S A : Type} (m : Render S A) : list (event S) := m.1.

Definition returns {S A : Type} (m : Render S A) : result A := m.2.

Definition hooks_called {S : Type} (t : list (event S)) : list hook_name :=
  omap (λ ev, match ev with HookCall h => Some h | _ => None end) t.

Definition effects_scheduled {S : Type} (t : list (event S)) : list (effect S) :=
  omap (λ ev, match ev with Schedule e => Some e | _ => None end) t.

Definition printed {S : Type} (t : list (event S)) : list string :=
  omap (λ ev, match ev with Print m => Some m | _ => None end) t.

(** ** Hooks

    Each hook takes the cell React kept for it from the previous render of
    the component ([None] on mount) where it has one. *)

Definition useState {S T : Type} (cell : option T) (initial : T) : Render S T :=
  tell [HookCall HuseState];; mret (default initial cell).

Definition useReducer {S T : Type} (cell : option T) (initial : T) : Render S T :=
  tell [HookCall HuseReducer];; mret (default initial cell).

Definition useRef {S T : Type} (cell : option T) (initial : T) : Render S T :=
  tell [HookCall HuseRef];; mret (default initial cell).

Definition useEffect {S : Type} (f : func unit S) (d : option (list value))
  : Render S unit :=
  tell [HookCall HuseEffect; Schedule (Effect HuseEffect f d)].

Definition useLayoutEffect {S : Type} (f : func unit S)
  (d : option (list value)) : Render S unit :=
  tell [HookCall HuseLayoutEffect; Schedule (Effect HuseLayoutEffect f d)].

Definition useInsertionEffect {S : Type} (f : func unit S)
  (d : option (list value)) : Render S unit :=
  tell [HookCall HuseInsertionEffect; Schedule (Effect HuseInsertionEffect f d)].

(** [useMemo(calculate, deps)]: the cached value when the dependencies are
    those of the cache, the calculation otherwise.  React compares the
    dependencies with [Object.is], which on numbers is the equality of
    doubles as data: [NaN] is [NaN], and [+0] is not [-0]. *)
Definition useMemo {S T : Type} (cell : option (list number * T))
  (calculate : unit → Render S T) (d : list number) : Render S T :=
  tell [HookCall HuseMemo];;
  match cell with
  | Some (d', v) => if bool_decide (d' = d) then mret v else calculate tt
  | None => calculate tt
  end.

(** [useCallback(fn, deps)]: the cached function under the same rule. *)
Definition useCallback {S F : Type} (cell : option (list number * F)) (fn : F)
  (d : list number) : Render S F :=
  tell [HookCall HuseCallback];;
  match cell with
  | Some (d', g) => if bool_decide (d' = d) then mret g else mret fn
  | None => mret fn
  end.

(** [useContext(c)]: the value of the nearest provider of [c] above the
    component, the context's default where there is none. *)
Definition useContext {S : Type} (c : context) (provided : gmap string string)
  : Render S string :=
  tell [HookCall HuseContext];;
  mret (default (defaultValue c) (provided !! context_id c)).

(** [useTransition()]: the pending flag React keeps, and [startTransition].
    A render that calls [startTransition] is recorded as doing so; what
    React makes of a transition started while rendering is not part of the
    function. *)
Definition useTransition {S : Type} (cell : option bool) : Render S bool :=
  tell [HookCall HuseTransition];; mret (default false cell).

Definition startTransition {S : Type} (f : func unit S) : Render S unit :=
  tell [Transition f].

(** [useDeferredValue(v)]: [v] on mount; on an update the value of the
    previous render while the render is urgent, [v] in the deferred render
    that follows. *)
Definition useDeferredValue {S T : Type} (cell : option T) (v : T)
  (urgent : bool) : Render S T :=
  tell [HookCall HuseDeferredValue];;
  mret (match cell with
        | Some old => if urgent then old else v
        | None => v
        end).

Definition useDebugValue {S : Type} (v : string) : Render S unit :=
  tell [HookCall HuseDebugValue].

(** [useId()]: the identifier kept for the cell, a fresh one on mount. *)
Definition useId {S : Type} (cell : option nat) (fresh : nat) : Render S nat :=
  tell [HookCall HuseId];; mret (default fresh cell).

(** [use(promise)]: the value of a fulfilled promise; a rejected one throws
    its reason; a pending one suspends the render, and React keeps the
    promise.  When React replays a render it suspended, [use] is given the
    promise kept at this call and uses it in place of the new one. *)
Definition use {S : Type} (kept : option (promise S)) (p : promise S)
  : Render S value :=
  tell [HookCall Huse];;
  let used := default p kept in
  match status_of used with
  | Fulfilled v => mret v
  | Failed e => lift (Throw e)
  | Pending => tell [Awaiting used];; lift (Throw SuspenseException)
  end.

Definition console_log {S : Type} (msg : string) : Render S unit :=
  tell [Print msg].

(** ** The examples *)

(** *** 1. useState *)

Definition UseStateExample (cell : option number)
  : Render number (number * element number) :=
  count ← useState cell (js_lit 0);
  mret (count,
    Tag "button"
      [("onclick",
        AHandler (Func SyncFn (λ _,
          setState (js_add count (js_lit 1)) (Return VUndefined))))]
      [Text "useState increment: "; Num count]).

(** *** 2. useReducer *)

Record counter := Counter { count : number }.
Record action := Action { type : string }.

Definition reducer (state : counter) (action : action) : counter :=
  if String.eqb (type action) "increment" then
    {| count := js_add (count state) (js_lit 1) |}
  else if String.eqb (type action) "decrement" then
    {| count := js_sub (count state) (js_lit 1) |}
  else
    state.

Definition UseReducerExample (cell : option counter)
  : Render counter (counter * element counter) :=
  state ← useReducer cell {| count := js_lit 0 |};
  mret (state,
    Tag "button"
      [("onclick",
        AHandler (Func SyncFn (λ _,
          dispatch reducer {| type := "increment" |} (Return VUndefined))))]
      [Text "useReducer increment: "; Num (count state)]).

(** *** 3. useSyncExternalStore *)

Definition UseSyncExternalStoreExample : Render unit (unit * element unit) :=
  mret (tt, Tag "div" [] [Text "useSyncExternalStore Example"]).

(** *** 4. useEffect *)

Definition data_url : string := "https://api.example.com/data".

(** The callback both fetching examples pass:
    [async () => { const res = await fetch(url); setResponse(res); }]. *)
Definition fetch_and_store : func unit value :=
  Func AsyncFn (λ _,
    Await (Fetch data_url) (λ res,
    setState (VResponse res) (Return VUndefined))).

(** [response.data.map((item) => <li>{item.name}</li>)] *)
Definition response_items {S : Type} (response : value)
  : result (list (element S)) :=
  data ← get_prop response Kdata;
  call_map data (λ item,
    name ← get_prop item Kname;
    mret (Tag "li" [] [Expr name])).

Definition UseEffectExample (cell : option value)
  : Render value (value * element value) :=
  response ← useState cell (VArr []);
  useEffect fetch_and_store (Some []);;
  items ← lift (response_items response);
  mret (response,
    Tag "div" [] [Text "useEffect Example"; Text " "; Items items]).

(** *** 5. useLayoutEffect *)

Definition UseLayoutEffectExample (cell : option value)
  : Render value (value * element value) :=
  response ← useState cell (VArr []);
  useLayoutEffect fetch_and_store None;;
  items ← lift (response_items response);
  mret (response,
    Tag "div" [] [Text "useLayoutEffect Example"; Text " "; Items items]).

(** *** 6. useInsertionEffect *)

Definition UseInsertionEffectExample (cell : option value)
  : Render value (value * element value) :=
  dependencies ← useState cell (VArr []);
  useInsertionEffect (Func AsyncFn (λ _, Return VUndefined))
    (Some [dependencies]);;
  mret (dependencies, Tag "div" [] [Text "useInsertionEffect Example"]).

(** *** 7. useRef *)

(** The cell is the [current] field of the ref object. *)
Definition UseRefExample (cell : option value)
  : Render unit (value * element unit) :=
  current ← useRef cell (VStr "");
  shown ← lift (get_prop current Kvalue);
  mret (current,
    Tag "div" []
      [Tag "h1" [] [Text "useRef Example"];
       Tag "input" [("type", AStr "text"); ("ref", ARef)] [];
       Tag "p" [] [Expr shown]]).

(** *** 8. useMemo *)

Record memo_cells := MemoCells {
  memo_count : number;
  memo_cache : list number * number
}.

Definition expensiveComputation {S : Type} (num : number) : Render S number :=
  console_log "Computing...";;
  mret (js_mul num (js_lit 2)).

Definition UseMemoExample (cells : option memo_cells)
  : Render number (memo_cells * element number) :=
  count ← useState (memo_count <$> cells) (js_lit 0);
  memoizedValue ←
    useMemo (memo_cache <$> cells) (λ _, expensiveComputation count) [count];
  mret ({| memo_count := count; memo_cache := ([count], memoizedValue) |},
    Tag "div" []
      [Tag "h1" [] [Text "useMemo Example"];
       Tag "p" [] [Text "Computed Value: "; Num memoizedValue];
       Tag "button"
         [("onClick",
           AHandler (Func SyncFn (λ _,
             setState (js_add count (js_lit 1)) (Return VUndefined))))]
         [Text "Increment"]]).

(** *** 9. useCallback *)

(** [React.memo] only lets React skip a render whose props did not change;
    what a render of the wrapped component does is the function itself. *)
Definition ChildComponent {S : Type} (onClick : handler S)
  : Render S (element S) :=
  console_log "Child rendered";;
  mret (Tag "button" [("onClick", AHandler onClick)] [Text "Click me"]).

Record callback_cells := CallbackCells {
  callback_count : number;
  callback_cache : list number * handler number
}.

Definition UseCallbackExample (cells : option callback_cells)
  : Render number (callback_cells * element number) :=
  count ← useState (callback_count <$> cells) (js_lit 0);
  handleClick ←
    useCallback (callback_cache <$> cells)
      (Func SyncFn (λ _, ConsoleLog "Button clicked" (Return VUndefined))) [];
  mret ({| callback_count := count; callback_cache := ([], handleClick) |},
    Tag "div" []
      [Tag "h1" [] [Text "useCallback Example"];
       Tag "p" [] [Text "Count: "; Num count];
       Tag "button"
         [("onClick",
           AHandler (Func SyncFn (λ _,
             setState (js_add count (js_lit 1)) (Return VUndefined))))]
         [Text "Increment"];
       Comp (Call_ChildComponent handleClick)]).

(** *** 10. useContext *)

Definition ThemeContext : context := createContext "ThemeContext" "light".

Definition UseContextExample : Render unit (element unit) :=
  mret (Tag "div" []
    [Tag "h1" [] [Text "useContext Example"];
     Provider ThemeContext "dark" [Comp Call_ChildComponentContext]]).

Definition ChildComponentContext {S : Type} (provided : gmap string string)
  : Render S (element S) :=
  theme ← useContext ThemeContext provided;
  mret (Tag "p" [] [Text "Current theme: "; Text theme]).

(** *** 11. useTransition *)

(** [flag && element] as a child: the element, or the [false] the
    conjunction evaluates to. *)
Definition and_then {S : Type} (flag : bool) (e : element S) : element S :=
  if flag then e else Expr (VBool false).

Definition UseTransitionExample (cell : option bool)
  : Render unit (bool * element unit) :=
  isPending ← useTransition cell;
  startTransition (Func SyncFn (λ _, Return VUndefined));;
  mret (isPending,
    Tag "div" []
      [Text "useTransition Example";
       and_then isPending (Tag "div" [] [Text "Loading..."]);
       and_then (negb isPending) (Tag "div" [] [Text "Loaded"])]).

(** *** 12. useDeferredValue *)

Record deferred_cells := DeferredCells {
  deferred_input : string;
  deferred_shown : string
}.

Definition UseDeferredValueExample (cells : option deferred_cells)
  (urgent : bool) : Render string (deferred_cells * element string) :=
  input ← useState (deferred_input <$> cells) "";
  deferredInput ← useDeferredValue (deferred_shown <$> cells) input urgent;
  mret ({| deferred_input := input; deferred_shown := deferredInput |},
    Tag "div" []
      [Tag "h1" [] [Text "useDeferredValue Example"];
       Tag "input"
         [("type", AStr "text");
          ("value", AStr input);
          ("onChange",
           AHandler (Func SyncFn (λ e,
             setState (target_value e) (Return VUndefined))))]
         [];
       Tag "p" [] [Text "Deferred Value: "; Text deferredInput]]).

(** *** 13. useDebugValue *)

Definition UseDebugValueExample : Render unit (unit * element unit) :=
  let debugValue := "some debug value" in
  useDebugValue debugValue;;
  mret (tt, Tag "div" [] [Text "useDebugValue Example"]).

(** *** 14. useId *)

Definition UseIdExample (cells : option (nat * nat)) (fresh : nat)
  : Render unit (nat * nat * element unit) :=
  ID ← useId (fst <$> cells) fresh;
  ID2 ← useId (snd <$> cells) (fresh + 1)%nat;
  mret (ID, ID2,
    Tag "div" []
      [Text "useId Example";
       Tag "form" [("action", AStr "")]
         [Tag "label" [("htmlFor", AStr "{ID}")] [Text "first input"];
          Text " ";
          Tag "input" [("type", AStr "text"); ("id", AStr "{ID}")] [];
          Tag "label" [("htmlFor", AStr "{ID2}")] [Text "second input"];
          Tag "input" [("type", AStr "text"); ("id", AStr "{ID2}")] []]]).

(** *** 15. use *)

Definition fetchDataFromAPI {S : Type} : func unit S :=
  Func AsyncFn (λ _,
    Await (Fetch data_url) (λ res,
    Await (Json res) (λ parsed,
    Return parsed))).

(** The promise an [async] call returns: that of the body of the function
    at the argument, pending when the call returns. *)
Definition promise_of_call {A S : Type} (f : func A S) (a : A) : promise S :=
  Promise (body f a) Pending.

(** The promise once the world has answered its task: fulfilled with the
    value the task returns, rejected with what it throws.  (No task of the
    file returns a function or a promise, which the values of the model do
    not have.) *)
Definition settle {S : Type} (w : world) (s : S) (p : promise S) : promise S :=
  match status_of p with
  | Pending =>
      match completion (run w (task_of p) s) with
      | Ok (RValue v) => Promise (task_of p) (Fulfilled v)
      | Throw e => Promise (task_of p) (Failed e)
      | Ok (RFunction _) | Ok (RPromise _) => p
      end
  | Fulfilled _ | Failed _ => p
  end.

(** [kept] is the promise React kept when it suspended the render it now
    replays; a render that is not a replay has none. *)
Definition MyComponent (kept : option (promise unit))
  : Render unit (unit * element unit) :=
  data ← use kept (promise_of_call fetchDataFromAPI tt);
  mret (tt,
    Tag "div" []
      [if truthy data then Tag "div" [] [Expr data]
       else Tag "p" [] [Text "Loading..."]]).

(** ** Expanding an element tree

    React renders the component elements of a tree in turn, each under the
    providers above it, until only host elements are left.  The children a
    component returns are not part of the tree that mentions it, so the
    expansion is driven by a depth bound. *)

Fixpoint expand {St : Type} (depth : nat) (provided : gmap string string)
  (e : element St) : option (Render St (element St)) :=
  match depth with
  | O => None
  | S depth' =>
      let expand_all := fix expand_all (env : gmap string string)
                          (l : list (element St))
        : option (Render St (list (element St))) :=
        match l with
        | [] => Some (mret [])
        | x :: l' =>
            match expand depth' env x, expand_all env l' with
            | Some rx, Some rl => Some (x' ← rx; l'' ← rl; mret (x' :: l''))
            | _, _ => None
            end
        end in
      let expand_rendered := λ (r : Render St (element St)),
        match r with
        | (t, Ok e') =>
            match expand depth' provided e' with
            | Some (t', r') => Some (t ++ t', r')
            | None => None
            end
        | (t, Throw err) => Some (t, Throw err)
        end in
      match e with
      | Text _ | Num _ | Expr _ => Some (mret e)
      | Items l =>
          match expand_all provided l with
          | Some r => Some (l' ← r; mret (Items l'))
          | None => None
          end
      | Tag name attrs children =>
          match expand_all provided children with
          | Some r => Some (l' ← r; mret (Tag name attrs l'))
          | None => None
          end
      | Provider c v children =>
          match expand_all (<[context_id c := v]> provided) children with
          | Some r => Some (l' ← r; mret (Items l'))
          | None => None
          end
      | Comp (Call_ChildComponent onClick) =>
          expand_rendered (ChildComponent onClick)
      | Comp Call_ChildComponentContext =>
          expand_rendered (ChildComponentContext provided)
      end
  end.

(** The event properties React DOM listens to, among those the file writes.
    Property names are case sensitive. *)
Definition event_properties : list string := ["onClick"; "onChange"].

Definition listener {S : Type} (a : string * attr S) : option (handler S) :=
  match a with
  | (name, AHandler h) =>
      if bool_decide (name ∈ event_properties) then Some h else None
  | _ => None
  end.

(** The handlers a host tree has attached. *)
Fixpoint listeners {S : Type} (e : element S) : list (handler S) :=
  match e with
  | Tag _ attrs children => omap listener attrs ++ flat_map listeners children
  | Items children | Provider _ _ children => flat_map listeners children
  | Text _ | Num _ | Expr _ | Comp _ => []
  end.

(** ** The components of the file *)

(** What a render takes from its surroundings besides its own cells. *)
Record ambient := Ambient {
  provided : gmap string string;
  urgent : bool;
  fresh_id : nat
}.

(** A function component with the memory React keeps for it: [State] is
    what its setter writes, [Cells] all its hook cells, [Props] its
    argument. *)
Record component := Component {
  State : Type;
  Cells : Type;
  Props : Type;
  render : Props → option Cells → ambient → Render State (Cells * element State);
  read : Cells → State;
  write : State → Cells → Cells
}.

Definition no_cells {S : Type} (r : Render S (element S))
  : Render S (unit * element S) :=
  e ← r; mret (tt, e).

Inductive name : Type :=
| N_UseStateExample | N_UseReducerExample | N_UseSyncExternalStoreExample
| N_UseEffectExample | N_UseLayoutEffectExample | N_UseInsertionEffectExample
| N_UseRefExample | N_UseMemoExample | N_ChildComponent | N_UseCallbackExample
| N_UseContextExample | N_ChildComponentContext | N_UseTransitionExample
| N_UseDeferredValueExample | N_UseDebugValueExample | N_UseIdExample
| N_MyComponent.

#[global] Instance name_eq_dec : EqDecision name.
Proof. solve_decision. Defined.

(** The components declared without a parameter are called with a props
    object all the same, and do not look at it. *)
Definition the_component (n : name) : component :=
  match n with
  | N_UseStateExample =>
      Component number number value (λ _ cell _, UseStateExample cell)
        id (λ s _, s)
  | N_UseReducerExample =>
      Component counter counter value (λ _ cell _, UseReducerExample cell)
        id (λ s _, s)
  | N_UseSyncExternalStoreExample =>
      Component unit unit value (λ _ _ _, UseSyncExternalStoreExample)
        id (λ _ c, c)
  | N_UseEffectExample =>
      Component value value value (λ _ cell _, UseEffectExample cell)
        id (λ s _, s)
  | N_UseLayoutEffectExample =>
      Component value value value (λ _ cell _, UseLayoutEffectExample cell)
        id (λ s _, s)
  | N_UseInsertionEffectExample =>
      Component value value value (λ _ cell _, UseInsertionEffectExample cell)
        id (λ s _, s)
  | N_UseRefExample =>
      Component unit value value (λ _ cell _, UseRefExample cell)
        (λ _, tt) (λ _ c, c)
  | N_UseMemoExample =>
      Component number memo_cells value (λ _ cells _, UseMemoExample cells)
        memo_count (λ s c, {| memo_count := s; memo_cache := memo_cache c |})
  | N_ChildComponent =>
      Component number unit (handler number)
        (λ onClick _ _, no_cells (ChildComponent onClick))
        (λ _, js_lit 0) (λ _ c, c)
  | N_UseCallbackExample =>
      Component number callback_cells value
        (λ _ cells _, UseCallbackExample cells)
        callback_count
        (λ s c, {| callback_count := s; callback_cache := callback_cache c |})
  | N_UseContextExample =>
      Component unit unit value (λ _ _ _, no_cells UseContextExample)
        id (λ _ c, c)
  | N_ChildComponentContext =>
      Component unit unit value
        (λ _ _ amb, no_cells (ChildComponentContext (provided amb)))
        id (λ _ c, c)
  | N_UseTransitionExample =>
      Component unit bool value (λ _ cell _, UseTransitionExample cell)
        (λ _, tt) (λ _ c, c)
  | N_UseDeferredValueExample =>
      Component string deferred_cells value
        (λ _ cells amb, UseDeferredValueExample cells (urgent amb))
        deferred_input
        (λ s c, {| deferred_input := s; deferred_shown := deferred_shown c |})
  | N_UseDebugValueExample =>
      Component unit unit value (λ _ _ _, UseDebugValueExample) id (λ _ c, c)
  | N_UseIdExample =>
      Component unit (nat * nat) value
        (λ _ cells amb,
           '(ID, ID2, e) ← UseIdExample cells (fresh_id amb);
           mret ((ID, ID2), e))
        (λ _, tt) (λ _ c, c)
  | N_MyComponent =>
      Component unit (option (promise unit)) value
        (λ _ kept _, '(_, e) ← MyComponent (kept ≫= id); mret (None, e))
        (λ _, tt) (λ _ c, c)
  end.

(** ** The memory of a page and the life of a component *)

(** The cells React keeps, per component of the file ([None]: the component
    is not mounted). *)
Definition memory : Type := ∀ n : name, option (Cells (the_component n)).

Definition render_in (m : memory) (n : name) (props : Props (the_component n))
  (amb : ambient) :=
  render (the_component n) props (m n) amb.

Definition store (n : name) (c : option (Cells (the_component n)))
  (m : memory) : memory :=
  λ n', match decide (n = n') with
        | left e => eq_rect n (λ k, option (Cells (the_component k))) c n' e
        | right _ => m n'
        end.

(** A handler runs and its writes reach the state cell of its component. *)
Definition fired (c : component) (h : handler (State c)) (ev : dom_event)
  (w : world) (cells : Cells c) : Cells c :=
  write c (final (run w (body h ev) (read c cells))) cells.

Definition fire (n : name) (h : handler (State (the_component n)))
  (ev : dom_event) (w : world) (m : memory) : memory :=
  store n (fired (the_component n) h ev w <$> m n) m.

(** The memories a component goes through: the cells its first render
    leaves, those a later render leaves, and those left when a handler
    attached by its last render has run. *)
Inductive reachable (c : component) (props : Props c) : Cells c → Prop :=
| reach_mount amb t cells e :
    render c props None amb = (t, Ok (cells, e)) →
    reachable c props cells
| reach_render amb t cells cells' e :
    reachable c props cells →
    render c props (Some cells) amb = (t, Ok (cells', e)) →
    reachable c props cells'
| reach_event amb t cells cells' e depth t' host h ev w :
    reachable c props cells →
    render c props (Some cells) amb = (t, Ok (cells', e)) →
    expand depth (provided amb) e = Some (t', Ok host) →
    h ∈ listeners host →
    reachable c props (fired c h ev w cells').

(** The cache of the useMemo example holds what the calculation gives for
    the dependency it was computed from. *)
Definition cache_sound (m : memo_cells) : Prop :=
  ∀ n, (memo_cache m).1 = [n] → (memo_cache m).2 = js_mul n (js_lit 2).

(** ** The declarations of the module

    The file numbers its examples with comment banners, [1. useState] to
    [15. use].  Each top-level declaration is listed with the number of the
    banner it stands under and the identifiers its body takes from outside
    itself, in the order they first occur (type annotations aside). *)

Record declaration := Declaration {
  declared : string;
  example_no : nat;
  refers_to : list string
}.

Definition react_imports : list string :=
  ["React"; "useState"; "useReducer"; "useEffect"; "useLayoutEffect";
   "useInsertionEffect"; "useRef"; "useMemo"; "useCallback"; "useContext";
   "createContext"; "useTransition"; "useDeferredValue"; "useDebugValue";
   "useId"; "use"].

Definition globals : list string := ["fetch"; "console"].

Definition declarations : list declaration :=
  [Declaration "UseStateExample" 1 ["useState"];
   Declaration "UseReducerExample" 2 ["useReducer"];
   Declaration "UseSyncExternalStoreExample" 3 [];
   Declaration "UseEffectExample" 4 ["useState"; "useEffect"; "fetch"];
   Declaration "UseLayoutEffectExample" 5
     ["useState"; "useLayoutEffect"; "fetch"];
   Declaration "UseInsertionEffectExample" 6
     ["useState"; "useInsertionEffect"];
   Declaration "UseRefExample" 7 ["useRef"];
   Declaration "UseMemoExample" 8 ["useState"; "console"; "useMemo"];
   Declaration "ChildComponent" 9 ["React"; "console"];
   Declaration "UseCallbackExample" 9
     ["useState"; "useCallback"; "console"; "ChildComponent"];
   Declaration "ThemeContext" 10 ["createContext"];
   Declaration "UseContextExample" 10 ["ThemeContext"; "ChildComponentContext"];
   Declaration "ChildComponentContext" 10 ["useContext"; "ThemeContext"];
   Declaration "UseTransitionExample" 11 ["useTransition"];
   Declaration "UseDeferredValueExample" 12 ["useState"; "useDeferredValue"];
   Declaration "UseDebugValueExample" 13 ["useDebugValue"];
   Declaration "UseIdExample" 14 ["useId"];
   Declaration "MyComponent" 15 ["use"; "fetchDataFromAPI"];
   Declaration "fetchDataFromAPI" 15 ["fetch"]]%nat.

(** An identifier used by [d] is bound by the import from React, by the
    platform, or by a declaration of the same example. *)
Definition bound_within (d : declaration) (x : string) : bool :=
  bool_decide (x ∈ react_imports) || bool_decide (x ∈ globals)
  || existsb (λ d', String.eqb (declared d') x
                    && Nat.eqb (example_no d') (example_no d)) declarations.

Definition self_contained (d : declaration) : bool :=
  forallb (bound_within d) (refers_to d).

(** The declarations read one by one, each on its own: none uses a name
    that another declaration of the file declares. *)
Definition functions_independent : Prop :=
  ∀ d d', d ∈ declarations → d' ∈ declarations →
          declared d' ∈ refers_to d → d' = d.

(** The example a component belongs to. *)
Definition example_of (n : name) : nat :=
  match n with
  | N_UseStateExample => 1
  | N_UseReducerExample => 2
  | N_UseSyncExternalStoreExample => 3
  | N_UseEffectExample => 4
  | N_UseLayoutEffectExample => 5
  | N_UseInsertionEffectExample => 6
  | N_UseRefExample => 7
  | N_UseMemoExample => 8
  | N_ChildComponent | N_UseCallbackExample => 9
  | N_UseContextExample | N_ChildComponentContext => 10
  | N_UseTransitionExample => 11
  | N_UseDeferredValueExample => 12
  | N_UseDebugValueExample => 13
  | N_UseIdExample => 14
  | N_MyComponent => 15
  end%nat.

(** The hooks that create a state value local to the component. *)
Definition state_creating (h : hook_name) : bool :=
  match h with
  | HuseState | HuseReducer | HuseRef => true
  | _ => false
  end.

(** The component a component element names, and the components an element
    tree asks React to render. *)
Definition child_name {S : Type} (c : child_call S) : name :=
  match c with
  | Call_ChildComponent _ => N_ChildComponent
  | Call_ChildComponentContext => N_ChildComponentContext
  end.

Fixpoint rendered_components {S : Type} (e : element S) : list name :=
  match e with
  | Comp c => [child_name c]
  | Tag _ _ children | Items children | Provider _ _ children =>
      flat_map rendered_components children
  | Text _ | Num _ | Expr _ => []
  end.

(** What each call of an effect hook in the render hands to React is an
    [async] function, so what React gets back on calling it is a promise,
    which is neither nothing nor a cleanup function. *)
Definition passes_async_effect {S A : Type} (m : Render S A) : Prop :=
  ∃ e, effects_scheduled (trace m) = [e]
       ∧ kind (create e) = AsyncFn
       ∧ ∀ (w : world) (s : S),
           ∃ task, (call (create e) tt w s).2 = Ok (RPromise task)
                   ∧ accepted_by_effect (RPromise task) = false.

(** A network that answers every [fetch] with [200 OK] and the body
    [[1, 2]], and parses it. *)
Definition sample_response : response :=
  {| status := 200; body_text := "[1, 2]" |}.

Definition sample_world : world := λ T op,
  match op in io T return settled T with
  | Fetch _ => Resolved sample_response
  | Json _ => Resolved (VArr [VNum (js_lit 1); VNum (js_lit 2)])
  end.

(** The hooks a render of each component calls, in order.  They do not
    depend on the cells: hooks are called unconditionally. *)
Definition hooks_of (n : name) : list hook_name :=
  match n with
  | N_UseStateExample => [HuseState]
  | N_UseReducerExample => [HuseReducer]
  | N_UseSyncExternalStoreExample => []
  | N_UseEffectExample => [HuseState; HuseEffect]
  | N_UseLayoutEffectExample => [HuseState; HuseLayoutEffect]
  | N_UseInsertionEffectExample => [HuseState; HuseInsertionEffect]
  | N_UseRefExample => [HuseRef]
  | N_UseMemoExample => [HuseState; HuseMemo]
  | N_ChildComponent => []
  | N_UseCallbackExample => [HuseState; HuseCallback]
  | N_UseContextExample => []
  | N_ChildComponentContext => [HuseContext]
  | N_UseTransitionExample => [HuseTransition]
  | N_UseDeferredValueExample => [HuseState; HuseDeferredValue]
  | N_UseDebugValueExample => [HuseDebugValue]
  | N_UseIdExample => [HuseId; HuseId]
  | N_MyComponent => [Huse]
  end.

(** The number of state values a render creates or takes up again. *)
Definition state_values (hooks : list hook_name) : nat :=
  length (List.filter state_creating hooks).

(** Rendering a component and the component elements it returns. *)
Definition render_tree {St : Type} (depth : nat)
  (provided : gmap string string) (r : Render St (element St))
  : option (Render St (element St)) :=
  match r with
  | (t, Ok e) =>
      match expand depth provided e with
      | Some (t', r') => Some (t ++ t', r')
      | None => None
      end
  | (t, Throw err) => Some (t, Throw err)
  end.

(** A page on which only the useMemo example is mounted, its count at
    [3] and its cache still that of the render at [2]. *)
Definition sample_memory : memory :=
  store N_UseMemoExample
    (Some {| memo_count := js_lit 3; memo_cache := ([js_lit 2], js_lit 4) |})
    (λ _, None).

Definition sample_ambient : ambient :=
  {| provided := ∅; urgent := true; fresh_id := 0 |}.

(** ** Runs of the examples *)

(** The actions dispatched to the reducer, applied in the order they were
    dispatched. *)
Definition reduce_all (s : counter) (l : list action) : counter :=
  fold_left reducer l s.

Definition occurrences (t : string) (l : list action) : Z :=
  Z.of_nat (length (List.filter (λ a, String.eqb (type a) t) l)).

(** [undefined] and [null], the values no property can be read of. *)
Definition nullish (v : value) : bool :=
  match v with
  | VUndefined | VNull => true
  | _ => false
  end.

(** A network whose data is the number zero. *)
Definition zero_world : world := λ T op,
  match op in io T return settled T with
  | Fetch _ => Resolved sample_response
  | Json _ => Resolved (VNum (js_lit 0))
  end.

(** A network on which every request fails. *)
Definition failing_world : world := λ T op, Rejected FetchFailed.

(** The handler an element carries under a property name. *)
Definition handler_at {S : Type} (path : list nat) (prop : string)
  (e : element S) : option (handler S) :=
  match descendant path e with
  | Some b =>
      match assoc prop (attrs_of b) with
      | Some (AHandler h) => Some h
      | _ => None
      end
  | None => None
  end.

(** The promise a suspended render is waiting for. *)
Definition awaited {S : Type} (t : list (event S)) : option (promise S) :=
  last (omap (λ ev, match ev with Awaiting p => Some p | _ => None end) t).

(** [MyComponent] replayed once the world has settled the promise its first
    render suspended on. *)
Definition MyComponent_replayed (w : world)
  : Render unit (unit * element unit) :=
  MyComponent (settle w tt <$> awaited (trace (MyComponent None))).

(** A click on the Increment button of the useMemo example: the handler its
    last render attached runs, and the component renders again. *)
Definition memo_click (w : world) (cells : memo_cells) : option memo_cells :=
  match returns (UseMemoExample (Some cells)) with
  | Ok (m, e) =>
      match handler_at [2%nat] "onClick" e with
      | Some h =>
          match returns (UseMemoExample
                           (Some (fired (the_component N_UseMemoExample) h
                                    (DomEvent "") w m))) with
          | Ok (m', _) => Some m'
          | Throw _ => None
          end
      | None => None
      end
  | Throw _ => None
  end.

(** The memory of the useMemo example after its mount and [n] clicks. *)
Fixpoint memo_after (w : world) (n : nat) : option memo_cells :=
  match n with
  | O =>
      match returns (UseMemoExample None) with
      | Ok (m, _) => Some m
      | Throw _ => None
      end
  | S n' =>
      match memo_after w n' with
      | Some m => memo_click w m
      | None => None
      end
  end.

(** The text typed into the input of the useDeferredValue example reaches
    the state through the [onChange] handler of its last render. *)
Definition deferred_type (w : world) (cells : option deferred_cells)
  (urgent : bool) (ev : dom_event) : option deferred_cells :=
  match returns (UseDeferredValueExample cells urgent) with
  | Ok (m, e) =>
      match handler_at [1%nat] "onChange" e with
      | Some h =>
          Some (fired (the_component N_UseDeferredValueExample) h ev w m)
      | None => None
      end
  | Throw _ => None
  end.

(** * Properties *)

(** ** Integers as doubles

    Between [- 2 ^ 53] and [2 ^ 53] the arithmetic of doubles is that of the
    integers; at [2 ^ 53] it is not. *)

Lemma fexp64 (e : Z) : fexp 53 1024 e = Z.max (e - 53) (-1074).
Proof. reflexivity. Qed.

Lemma iter_xO_val (p : positive) (d : positive) :
  Zpos (Pos.iter xO p d) = Zpos p * 2 ^ Zpos d.
Proof.
  induction d as [|d IH] using Pos.peano_ind.
  - cbn. lia.
  - rewrite Pos.iter_succ, Pos2Z.inj_succ, Z.pow_succ_r by lia.
    rewrite Pos2Z.inj_xO, IH. lia.
Qed.

Lemma shift_left_val (p : positive) (n : Z) :
  0 ≤ n → Zpos (shift_left p n) = Zpos p * 2 ^ n.
Proof.
  destruct n as [|d|d]; intros Hn; cbn [shift_left].
  - lia.
  - apply iter_xO_val.
  - lia.
Qed.

Lemma digits_iter_xO (p d : positive) :
  Zpos (digits2_pos (Pos.iter xO p d)) = Zpos (digits2_pos p) + Zpos d.
Proof.
  induction d as [|d IH] using Pos.peano_ind.
  - cbn. lia.
  - rewrite Pos.iter_succ. cbn [digits2_pos]. rewrite Pos2Z.inj_succ, IH. lia.
Qed.

Lemma digits_shift_left (p : positive) (n : Z) :
  0 ≤ n →
  Zpos (digits2_pos (shift_left p n)) = Zpos (digits2_pos p) + n.
Proof.
  destruct n as [|d|d]; intros Hn; cbn [shift_left].
  - lia.
  - apply digits_iter_xO.
  - lia.
Qed.

Lemma shift_left_shift_left (p : positive) (a b : Z) :
  0 ≤ a → 0 ≤ b → shift_left (shift_left p a) b = shift_left p (a + b).
Proof.
  intros Ha Hb. apply Pos2Z.inj.
  rewrite !shift_left_val by lia. rewrite Z.pow_add_r by lia. lia.
Qed.

Lemma shr_iter_xO (d q : positive) :
  iter_pos shr_1 d
    {| shr_m := Zpos (Pos.iter xO q d); shr_r := false; shr_s := false |}
  = {| shr_m := Zpos q; shr_r := false; shr_s := false |}.
Proof.
  revert q. induction d as [d IH|d IH|]; intros q; cbn [iter_pos Pos.iter].
  - cbn [shr_1 orb]. rewrite IH. apply IH.
  - rewrite IH. apply IH.
  - reflexivity.
Qed.

Lemma pow2_double (d : Z) : 1 ≤ d → 2 ^ d = 2 * 2 ^ (d - 1).
Proof.
  intros Hd. rewrite <- Z.pow_succ_r by lia. f_equal. lia.
Qed.

Lemma digits_bounds (p : positive) :
  2 ^ (Zpos (digits2_pos p) - 1) ≤ Zpos p < 2 ^ Zpos (digits2_pos p).
Proof.
  induction p as [p IH|p IH|]; cbn [digits2_pos].
  - rewrite Pos2Z.inj_succ, (Pos2Z.inj_xI p).
    replace (Z.succ (Zpos (digits2_pos p)) - 1)
      with (Zpos (digits2_pos p)) by lia.
    rewrite (pow2_double (Z.succ _)) by lia.
    replace (Z.succ (Zpos (digits2_pos p)) - 1)
      with (Zpos (digits2_pos p)) by lia.
    rewrite (pow2_double (Zpos (digits2_pos p))) in * by lia.
    generalize dependent (2 ^ (Zpos (digits2_pos p) - 1)). intros; lia.
  - rewrite Pos2Z.inj_succ, (Pos2Z.inj_xO p).
    replace (Z.succ (Zpos (digits2_pos p)) - 1)
      with (Zpos (digits2_pos p)) by lia.
    rewrite (pow2_double (Z.succ _)) by lia.
    replace (Z.succ (Zpos (digits2_pos p)) - 1)
      with (Zpos (digits2_pos p)) by lia.
    rewrite (pow2_double (Zpos (digits2_pos p))) in * by lia.
    generalize dependent (2 ^ (Zpos (digits2_pos p) - 1)). intros; lia.
  - cbn. lia.
Qed.

Lemma digits_safe (p : positive) :
  Zpos p < 2 ^ 53 → Zpos (digits2_pos p) ≤ 53.
Proof.
  intros Hp. destruct (digits_bounds p) as [Hlo _].
  destruct (Z_le_gt_dec (Zpos (digits2_pos p)) 53) as [|Hgt]; [done|].
  assert (2 ^ 53 ≤ 2 ^ (Zpos (digits2_pos p) - 1))
    by (apply Z.pow_le_mono_r; lia).
  lia.
Qed.

Lemma round_canonical (s : bool) (m : positive) (e : Z) :
  fexp 53 1024 (Zpos (digits2_pos m) + e) = e →
  e ≤ 971 →
  binary_round_aux 53 1024 s (Zpos m) e loc_Exact = S754_finite s m e.
Proof.
  intros Hc He. unfold binary_round_aux, shr_fexp.
  cbn [Zdigits2 shr_record_of_loc]. rewrite Hc, Z.sub_diag.
  cbn [shr shr_m loc_of_shr_record round_nearest_even Zdigits2
       shr_record_of_loc].
  rewrite Hc, Z.sub_diag. cbn [shr shr_m].
  replace (e <=? 1024 - 53) with true; [reflexivity|].
  symmetry. apply Z.leb_le. lia.
Qed.

(** Rounding a mantissa that carries [k] zero bits, at least as many as
    the 53 bits leave room for. *)
Lemma round_shifted (s : bool) (p : positive) (k : Z) :
  Zpos (digits2_pos p) ≤ 53 →
  53 - Zpos (digits2_pos p) ≤ k →
  binary_round_aux 53 1024 s (Zpos (shift_left p k)) (- k) loc_Exact
  = canonical64 s p.
Proof.
  intros Hd Hk.
  assert (Hd1 : 1 ≤ Zpos (digits2_pos p)) by lia.
  set (d := Zpos (digits2_pos p)) in *.
  assert (Hk0 : 0 ≤ k) by lia.
  destruct (Z.eq_dec k (53 - d)) as [->|Hne].
  - unfold canonical64. fold d.
    replace (- (53 - d)) with (d - 53) by lia.
    apply round_canonical; [|lia].
    rewrite digits_shift_left by lia. fold d. rewrite fexp64. lia.
  - assert (Hn : 0 < k - (53 - d)) by lia.
    replace (shift_left p k)
      with (shift_left (shift_left p (53 - d)) (k - (53 - d)))
      by (rewrite shift_left_shift_left by lia; f_equal; lia).
    set (q := shift_left p (53 - d)).
    assert (Hq : Zpos (digits2_pos q) = 53).
    { unfold q. rewrite digits_shift_left by lia. fold d. lia. }
    destruct (k - (53 - d)) as [|n|n] eqn:Hkn; try lia.
    cbn [shift_left].
    unfold binary_round_aux at 1, shr_fexp at 1.
    cbn [Zdigits2 shr_record_of_loc].
    rewrite digits_iter_xO, Hq, fexp64.
    replace (Z.max (53 + Zpos n + - k - 53) (-1074) - - k) with (Zpos n)
      by lia.
    cbn [shr]. rewrite shr_iter_xO.
    cbn [shr_m loc_of_shr_record round_nearest_even].
    replace (- k + Zpos n) with (d - 53) by lia.
    unfold shr_fexp. cbn [Zdigits2 shr_record_of_loc].
    rewrite Hq, fexp64.
    replace (Z.max (53 + (d - 53) - 53) (-1074) - (d - 53)) with 0 by lia.
    cbn [shr shr_m].
    replace (d - 53 <=? 1024 - 53) with true
      by (symmetry; apply Z.leb_le; lia).
    reflexivity.
Qed.

Lemma binary_round_shifted (s : bool) (p : positive) (k : Z) :
  Zpos (digits2_pos p) ≤ 53 →
  0 ≤ k →
  binary_round 53 1024 s (shift_left p k) (- k) = canonical64 s p.
Proof.
  intros Hd Hk.
  assert (Hd1 : 1 ≤ Zpos (digits2_pos p)) by lia.
  unfold binary_round, shl_align.
  rewrite digits_shift_left by lia. rewrite fexp64.
  set (d := Zpos (digits2_pos p)) in *.
  replace (Z.max (d + k + - k - 53) (-1074)) with (d - 53) by lia.
  destruct (d - 53 - - k) as [|j|j] eqn:Hj.
  - apply round_shifted; lia.
  - apply round_shifted; lia.
  - change (Pos.iter xO (shift_left p k) j)
      with (shift_left (shift_left p k) (Zpos j)).
    rewrite shift_left_shift_left by lia.
    replace (k + Zpos j) with (53 - d) by lia.
    unfold canonical64. fold d.
    apply round_canonical; [|lia].
    rewrite digits_shift_left by lia. fold d. rewrite fexp64. lia.
Qed.

Lemma js_lit_pos (p : positive) :
  Zpos p < 2 ^ 53 → js_lit (Zpos p) = canonical64 false p.
Proof.
  intros Hp. unfold js_lit. cbn [binary_normalize].
  apply (binary_round_shifted false p 0); [by apply digits_safe|lia].
Qed.

Lemma js_lit_neg (p : positive) :
  Zpos p < 2 ^ 53 → js_lit (Zneg p) = canonical64 true p.
Proof.
  intros Hp. unfold js_lit. cbn [binary_normalize].
  apply (binary_round_shifted true p 0); [by apply digits_safe|lia].
Qed.

(** Rounding the integer [z] scaled by [2 ^ k], at the exponent [- k]. *)
Lemma normalize_scaled (z k : Z) :
  safe z → 0 ≤ k →
  binary_normalize 53 1024 (z * 2 ^ k) (- k) false = js_lit z.
Proof.
  intros [Hlo Hhi] Hk. destruct z as [|p|p].
  - reflexivity.
  - rewrite js_lit_pos by lia.
    rewrite <- shift_left_val by lia. cbn [binary_normalize].
    apply binary_round_shifted; [apply digits_safe; lia|lia].
  - rewrite js_lit_neg by lia.
    replace (Zneg p * 2 ^ k) with (- Zpos (shift_left p k))
      by (rewrite shift_left_val by lia; lia).
    cbn [Z.opp binary_normalize].
    apply binary_round_shifted; [apply digits_safe; lia|lia].
Qed.

(** The mantissa of a canonical integer, aligned to a smaller exponent. *)
Lemma canonical_aligned (p : positive) (ez : Z) :
  Zpos (digits2_pos p) ≤ 53 →
  ez ≤ Zpos (digits2_pos p) - 53 →
  Zpos (shl_align (shift_left p (53 - Zpos (digits2_pos p)))
          (Zpos (digits2_pos p) - 53) ez).1
  = Zpos p * 2 ^ (- ez).
Proof.
  intros Hd Hez. set (d := Zpos (digits2_pos p)) in *.
  unfold shl_align. destruct (ez - (d - 53)) as [|j|j] eqn:Hj; cbn [fst].
  - rewrite shift_left_val by lia. f_equal. f_equal. lia.
  - lia.
  - change (Pos.iter xO (shift_left p (53 - d)) j)
      with (shift_left (shift_left p (53 - d)) (Zpos j)).
    rewrite shift_left_shift_left by lia.
    rewrite shift_left_val by lia. f_equal. f_equal. lia.
Qed.

Lemma js_lit_sign (s : bool) (p : positive) :
  Zpos p < 2 ^ 53 → js_lit (int_of_sign s p) = canonical64 s p.
Proof. destruct s; [apply js_lit_neg|apply js_lit_pos]. Qed.

Lemma canonical_add (sx sy : bool) (px py : positive) :
  Zpos px < 2 ^ 53 → Zpos py < 2 ^ 53 →
  safe (int_of_sign sx px + int_of_sign sy py) →
  js_add (canonical64 sx px) (canonical64 sy py)
  = js_lit (int_of_sign sx px + int_of_sign sy py).
Proof.
  intros Hx Hy Hs.
  pose proof (digits_safe px Hx) as Hdx.
  pose proof (digits_safe py Hy) as Hdy.
  unfold js_add, canonical64, SFadd.
  set (ez := Z.min (Zpos (digits2_pos px) - 53) (Zpos (digits2_pos py) - 53)).
  rewrite <- (normalize_scaled _ (- ez)) by (try done; lia).
  rewrite Z.opp_involutive. f_equal.
  rewrite Z.mul_add_distr_r.
  f_equal.
  - destruct sx; cbn [cond_Zopp int_of_sign];
      rewrite canonical_aligned by lia; lia.
  - destruct sy; cbn [cond_Zopp int_of_sign];
      rewrite canonical_aligned by lia; lia.
Qed.

Lemma canonical_sub (sx sy : bool) (px py : positive) :
  Zpos px < 2 ^ 53 → Zpos py < 2 ^ 53 →
  safe (int_of_sign sx px - int_of_sign sy py) →
  js_sub (canonical64 sx px) (canonical64 sy py)
  = js_lit (int_of_sign sx px - int_of_sign sy py).
Proof.
  intros Hx Hy Hs.
  pose proof (digits_safe px Hx) as Hdx.
  pose proof (digits_safe py Hy) as Hdy.
  unfold js_sub, canonical64, SFsub.
  set (ez := Z.min (Zpos (digits2_pos px) - 53) (Zpos (digits2_pos py) - 53)).
  rewrite <- (normalize_scaled _ (- ez)) by (try done; lia).
  rewrite Z.opp_involutive. f_equal.
  rewrite Z.mul_sub_distr_r.
  f_equal.
  - destruct sx; cbn [cond_Zopp int_of_sign];
      rewrite canonical_aligned by lia; lia.
  - destruct sy; cbn [cond_Zopp int_of_sign];
      rewrite canonical_aligned by lia; lia.
Qed.

Lemma safe_cases (z : Z) :
  safe z → z = 0 ∨ ∃ s p, z = int_of_sign s p ∧ Zpos p < 2 ^ 53.
Proof.
  intros [Hlo Hhi]. destruct z as [|p|p]; [by left|right..].
  - exists false, p. split; [reflexivity|lia].
  - exists true, p. split; [reflexivity|lia].
Qed.

Lemma js_add_exact (z w : Z) :
  safe z → safe w → safe (z + w) →
  js_add (js_lit z) (js_lit w) = js_lit (z + w).
Proof.
  intros Hz Hw Hs.
  destruct (safe_cases z Hz) as [->|(sx & px & -> & Hx)];
    destruct (safe_cases w Hw) as [->|(sy & py & -> & Hy)].
  - reflexivity.
  - rewrite Z.add_0_l, js_lit_sign by done. reflexivity.
  - rewrite Z.add_0_r, js_lit_sign by done. reflexivity.
  - rewrite !js_lit_sign by done. by apply canonical_add.
Qed.

Lemma js_sub_exact (z w : Z) :
  safe z → safe w → safe (z - w) →
  js_sub (js_lit z) (js_lit w) = js_lit (z - w).
Proof.
  intros Hz Hw Hs.
  destruct (safe_cases z Hz) as [->|(sx & px & -> & Hx)];
    destruct (safe_cases w Hw) as [->|(sy & py & -> & Hy)].
  - reflexivity.
  - rewrite js_lit_sign by done.
    replace (0 - int_of_sign sy py) with (int_of_sign (negb sy) py)
      by (destruct sy; reflexivity).
    rewrite js_lit_sign by done. reflexivity.
  - rewrite Z.sub_0_r, js_lit_sign by done. reflexivity.
  - rewrite !js_lit_sign by done. by apply canonical_sub.
Qed.

Lemma digits_lower (p : positive) (n : Z) :
  2 ^ n ≤ Zpos p → 0 ≤ n → n < Zpos (digits2_pos p).
Proof.
  intros Hp Hn. destruct (digits_bounds p) as [_ Hhi].
  destruct (Z_lt_ge_dec n (Zpos (digits2_pos p))) as [|Hge]; [done|].
  assert (2 ^ Zpos (digits2_pos p) ≤ 2 ^ n) by (apply Z.pow_le_mono_r; lia).
  lia.
Qed.

Lemma canonical_mul (sx sy : bool) (px py : positive) :
  Zpos px < 2 ^ 53 → Zpos py < 2 ^ 53 → Zpos (px * py) < 2 ^ 53 →
  js_mul (canonical64 sx px) (canonical64 sy py)
  = canonical64 (xorb sx sy) (px * py).
Proof.
  intros Hx Hy Hxy.
  pose proof (digits_safe px Hx) as Hdx.
  pose proof (digits_safe py Hy) as Hdy.
  pose proof (digits_safe _ Hxy) as Hdxy.
  destruct (digits_bounds px) as [Hlx _].
  destruct (digits_bounds py) as [Hly _].
  unfold js_mul, canonical64 at 1 2, SFmul.
  set (dx := Zpos (digits2_pos px)) in *.
  set (dy := Zpos (digits2_pos py)) in *.
  assert (Hdx1 : 1 ≤ dx) by (unfold dx; lia).
  assert (Hdy1 : 1 ≤ dy) by (unfold dy; lia).
  assert (Hlow : dx + dy - 2 < Zpos (digits2_pos (px * py))).
  { apply digits_lower; [|lia].
    replace (dx + dy - 2) with ((dx - 1) + (dy - 1)) by lia.
    rewrite Z.pow_add_r by lia. rewrite Pos2Z.inj_mul.
    apply Z.mul_le_mono_nonneg; lia. }
  replace (shift_left px (53 - dx) * shift_left py (53 - dy))%positive
    with (shift_left (px * py) (106 - dx - dy)).
  2: { apply Pos2Z.inj. rewrite Pos2Z.inj_mul, !shift_left_val by lia.
       rewrite Pos2Z.inj_mul.
       replace (106 - dx - dy) with ((53 - dx) + (53 - dy)) by lia.
       rewrite Z.pow_add_r by lia. lia. }
  replace (dx - 53 + (dy - 53)) with (- (106 - dx - dy)) by lia.
  apply round_shifted; lia.
Qed.

Lemma js_mul_exact (z w : Z) :
  safe z → safe w → safe (z * w) → 0 < w →
  js_mul (js_lit z) (js_lit w) = js_lit (z * w).
Proof.
  intros Hz Hw Hs Hpos.
  destruct w as [|py|py]; try lia.
  rewrite (js_lit_pos py) by (destruct Hw; lia).
  destruct z as [|px|px].
  - reflexivity.
  - rewrite (js_lit_pos px) by (destruct Hz; lia).
    rewrite canonical_mul; try (destruct Hz, Hw, Hs; lia).
    cbn [xorb]. symmetry. apply js_lit_pos. destruct Hs; lia.
  - rewrite (js_lit_neg px) by (destruct Hz; lia).
    rewrite canonical_mul; try (destruct Hz, Hw, Hs; lia).
    cbn [xorb]. symmetry. apply js_lit_neg. destruct Hs; lia.
Qed.

Lemma canonical_inj (s s' : bool) (p q : positive) :
  canonical64 s p = canonical64 s' q → s = s' ∧ p = q.
Proof.
  unfold canonical64. intros [= Hs Hm He]. split; [done|].
  assert (Hd : Zpos (digits2_pos p) = Zpos (digits2_pos q)) by lia.
  rewrite Hd in Hm.
  destruct (digits_bounds q).
  apply Pos2Z.inj.
  destruct (Z_le_gt_dec 0 (53 - Zpos (digits2_pos q))) as [Hk|Hk].
  - assert (H2 : Zpos (shift_left p (53 - Zpos (digits2_pos q)))
                 = Zpos (shift_left q (53 - Zpos (digits2_pos q))))
      by (by rewrite Hm).
    rewrite !shift_left_val in H2 by lia.
    apply Z.mul_reg_r in H2; [done|].
    apply Z.pow_nonzero; lia.
  - destruct (53 - Zpos (digits2_pos q)) as [|k|k]; try lia.
    cbn [shift_left] in Hm. by rewrite Hm.
Qed.

Lemma js_lit_inj (z w : Z) :
  safe z → safe w → js_lit z = js_lit w → z = w.
Proof.
  intros Hz Hw.
  destruct (safe_cases z Hz) as [->|(sx & px & -> & Hx)];
    destruct (safe_cases w Hw) as [->|(sy & py & -> & Hy)].
  - done.
  - rewrite js_lit_sign by done. discriminate.
  - rewrite js_lit_sign by done. discriminate.
  - rewrite !js_lit_sign by done. intros [-> ->]%canonical_inj. done.
Qed.

Lemma js_mul_comm (x y : number) : js_mul x y = js_mul y x.
Proof.
  unfold js_mul. destruct x as [sx|sx| |sx mx ex], y as [sy|sy| |sy my ey];
    cbn [SFmul]; try reflexivity; try (by rewrite xorb_comm).
  by rewrite xorb_comm, Pos.mul_comm, Z.add_comm.
Qed.

(** At [2 ^ 53] adding one changes nothing, and taking one off what was
    added gives the integer below. *)
Lemma beyond_the_safe_integers :
  js_add (js_lit (2 ^ 53)) (js_lit 1) = js_lit (2 ^ 53)
  ∧ js_sub (js_add (js_lit (2 ^ 53)) (js_lit 1)) (js_lit 1)
    = js_lit (2 ^ 53 - 1)
  ∧ js_add (js_add (js_lit (2 ^ 53)) (js_lit 1)) (js_lit 1)
    = js_lit (2 ^ 53).
Proof. repeat split; vm_compute; reflexivity. Qed.

(** ** The reducer *)

Lemma reducer_increment (s : counter) :
  reducer s {| type := "increment" |}
  = {| count := js_add (count s) (js_lit 1) |}.
Proof. reflexivity. Qed.

Lemma reducer_decrement (s : counter) :
  reducer s {| type := "decrement" |}
  = {| count := js_sub (count s) (js_lit 1) |}.
Proof. reflexivity. Qed.

Lemma reducer_default (s : counter) (t : string) :
  t ≠ "increment" → t ≠ "decrement" → reducer s {| type := t |} = s.
Proof.
  intros Hi Hd. unfold reducer; simpl.
  destruct (String.eqb_spec t "increment") as [->|_]; [done|].
  destruct (String.eqb_spec t "decrement") as [->|_]; done.
Qed.

(** C3: the reducer is a total transition function on counters: on
    [{count: n}] the action [increment] gives [{count: n + 1}], the action
    [decrement] gives [{count: n - 1}], with the [+] and [-] of JavaScript
    numbers, and an action of any other type gives the state back
    unchanged.  On an integer [z] whose neighbour is within [2 ^ 53] of
    zero the sum and the difference are the integers [z + 1] and [z - 1]. *)
Theorem reducer_transitions (n : number) (t : string) (z : Z) :
  reducer {| count := n |} {| type := "increment" |}
  = {| count := js_add n (js_lit 1) |}
  ∧ reducer {| count := n |} {| type := "decrement" |}
    = {| count := js_sub n (js_lit 1) |}
  ∧ (t ≠ "increment" → t ≠ "decrement" →
     reducer {| count := n |} {| type := t |} = {| count := n |})
  ∧ (safe z → safe (z + 1) →
     reducer {| count := js_lit z |} {| type := "increment" |}
     = {| count := js_lit (z + 1) |})
  ∧ (safe z → safe (z - 1) →
     reducer {| count := js_lit z |} {| type := "decrement" |}
     = {| count := js_lit (z - 1) |}).
Proof.
  split; [apply reducer_increment|].
  split; [apply reducer_decrement|].
  split; [apply reducer_default|].
  split; intros Hz Hz'.
  - rewrite reducer_increment. cbn [count].
    rewrite js_add_exact; [reflexivity|done|split; lia|done].
  - rewrite reducer_decrement. cbn [count].
    rewrite js_sub_exact; [reflexivity|done|split; lia|done].
Qed.

Lemma reducer_transitions_witness :
  reducer {| count := js_lit 5 |} {| type := "reset" |}
  = {| count := js_lit 5 |}
  ∧ reducer {| count := js_lit 5 |} {| type := "increment" |}
    = {| count := js_lit 6 |}
  ∧ reducer {| count := js_lit 5 |} {| type := "decrement" |}
    = {| count := js_lit 4 |}.
Proof.
  destruct (reducer_transitions (js_lit 5) "reset" 5)
    as (_ & _ & Ho & Hi & Hd).
  split; [apply Ho; discriminate|].
  split; [apply Hi; split; lia|apply Hd; split; lia].
Defined.

(** The reducer at the end of the safe integers: [increment] leaves
    [2 ^ 53] where it is, and [decrement] after it gives [2 ^ 53 - 1]. *)
Lemma reducer_beyond_the_safe_integers :
  reducer {| count := js_lit (2 ^ 53) |} {| type := "increment" |}
  = {| count := js_lit (2 ^ 53) |}
  ∧ reducer (reducer {| count := js_lit (2 ^ 53) |} {| type := "increment" |})
      {| type := "decrement" |}
    = {| count := js_lit (2 ^ 53 - 1) |}.
Proof. split; vm_compute; reflexivity. Qed.

(** ** The fetching examples *)

Lemma response_items_empty_array {S : Type} :
  response_items (S := S) (VArr []) = Throw (TypeError_read "map").
Proof. reflexivity. Qed.

(** A stored [Response] has no [data] either: the render still fails once
    the effect has written its result. *)
Lemma response_items_raw_response {S : Type} (r : response) :
  response_items (S := S) (VResponse r) = Throw (TypeError_read "map").
Proof. reflexivity. Qed.

(** The expression does produce a list on the shape it was written for. *)
Lemma response_items_parsed {S : Type} (a b : string) :
  response_items (S := S)
    (VObj [("data", VArr [VObj [("name", VStr a)]; VObj [("name", VStr b)]])])
  = Ok [Tag "li" [] [Expr (VStr a)]; Tag "li" [] [Expr (VStr b)]].
Proof. reflexivity. Qed.

(** C1: on the first render, before the effect has run, [response] is the
    empty array of [useState([])]; its [data] is [undefined], and
    [response.data.map(..)] throws instead of giving a list, so the render
    of the useEffect and of the useLayoutEffect example ends in that
    exception. *)
Theorem first_render_reads_data_too_early :
  returns (useState (S := value) None (VArr [])) = Ok (VArr [])
  ∧ get_prop (VArr []) Kdata = Ok VUndefined
  ∧ response_items (S := value) (VArr []) = Throw (TypeError_read "map")
  ∧ UseEffectExample None =
      ([HookCall HuseState; HookCall HuseEffect;
        Schedule (Effect HuseEffect fetch_and_store (Some []))],
       Throw (TypeError_read "map"))
  ∧ UseLayoutEffectExample None =
      ([HookCall HuseState; HookCall HuseLayoutEffect;
        Schedule (Effect HuseLayoutEffect fetch_and_store None)],
       Throw (TypeError_read "map")).
Proof. repeat split. Qed.

(** The events of the three effect examples do not depend on how the render
    ends. *)
Lemma UseEffectExample_trace (cell : option value) :
  trace (UseEffectExample cell) =
    [HookCall HuseState; HookCall HuseEffect;
     Schedule (Effect HuseEffect fetch_and_store (Some []))].
Proof.
  unfold UseEffectExample, trace. simpl.
  destruct (response_items (default (VArr []) cell)); reflexivity.
Qed.

Lemma UseLayoutEffectExample_trace (cell : option value) :
  trace (UseLayoutEffectExample cell) =
    [HookCall HuseState; HookCall HuseLayoutEffect;
     Schedule (Effect HuseLayoutEffect fetch_and_store None)].
Proof.
  unfold UseLayoutEffectExample, trace. simpl.
  destruct (response_items (default (VArr []) cell)); reflexivity.
Qed.

Lemma UseInsertionEffectExample_trace (cell : option value) :
  trace (UseInsertionEffectExample cell) =
    [HookCall HuseState; HookCall HuseInsertionEffect;
     Schedule (Effect HuseInsertionEffect
                 (Func AsyncFn (λ _, Return VUndefined))
                 (Some [default (VArr []) cell]))].
Proof. reflexivity. Qed.

Lemma async_call_returns_promise {A S : Type} (f : func A S) (a : A)
  (w : world) (s : S) :
  kind f = AsyncFn → call f a w s = (s, Ok (RPromise (body f a))).
Proof. intros H. unfold call. rewrite H. reflexivity. Qed.

(** C2: in every render of the useEffect, useLayoutEffect and
    useInsertionEffect examples, the function passed to the effect hook is
    [async]: calling it returns a promise, not the [undefined] or cleanup
    function React expects of an effect. *)
Theorem effect_callbacks_return_promises (cell : option value) :
  passes_async_effect (UseEffectExample cell)
  ∧ passes_async_effect (UseLayoutEffectExample cell)
  ∧ passes_async_effect (UseInsertionEffectExample cell).
Proof.
  repeat split.
  - eexists. rewrite UseEffectExample_trace. simpl.
    split; [reflexivity|]. split; [reflexivity|].
    intros w s. eexists. split; reflexivity.
  - eexists. rewrite UseLayoutEffectExample_trace. simpl.
    split; [reflexivity|]. split; [reflexivity|].
    intros w s. eexists. split; reflexivity.
  - eexists. rewrite UseInsertionEffectExample_trace. simpl.
    split; [reflexivity|]. split; [reflexivity|].
    intros w s. eexists. split; reflexivity.
Qed.

(** A synchronous effect that returns nothing, or its cleanup, is what React
    accepts: the check does tell the two shapes apart. *)
Lemma sync_effect_accepted {S : Type} (w : world) (s : S) (cleanup : async S) :
  (∃ r, (call (Func SyncFn (λ _ : unit, Return VUndefined)) tt w s).2 = Ok r
        ∧ accepted_by_effect r = true)
  ∧ (∃ r, (call (Func SyncFn (λ _ : unit, ReturnCleanup cleanup)) tt w s).2
          = Ok r
          ∧ accepted_by_effect r = true).
Proof. split; eexists; split; reflexivity. Qed.

Lemma fetch_and_store_run (w : world) (s : value) :
  run w (body fetch_and_store tt) s =
    match w _ (Fetch data_url) with
    | Resolved res =>
        Outcome (VResponse res) [OpFetch data_url] [] (Ok (RValue VUndefined))
    | Rejected e => Outcome s [OpFetch data_url] [] (Throw e)
    end.
Proof. simpl. destruct (w response (Fetch data_url)); reflexivity. Qed.

(** C4: the effect of the useEffect and of the useLayoutEffect example is
    the same callback; run against any network, its only operation is the
    [fetch] (it never calls [json()]), and when the [fetch] resolves the
    state [response] is left holding that very [Response] object. *)
Theorem effect_stores_raw_response (cell : option value) (w : world)
  (s : value) :
  effects_scheduled (trace (UseEffectExample cell)) =
    [Effect HuseEffect fetch_and_store (Some [])]
  ∧ effects_scheduled (trace (UseLayoutEffectExample cell)) =
    [Effect HuseLayoutEffect fetch_and_store None]
  ∧ ops (run w (body fetch_and_store tt) s) = [OpFetch data_url]
  ∧ (OpJson ∉ ops (run w (body fetch_and_store tt) s))
  ∧ (∀ res, w _ (Fetch data_url) = Resolved res →
       final (run w (body fetch_and_store tt) s) = VResponse res).
Proof.
  rewrite UseEffectExample_trace, UseLayoutEffectExample_trace.
  rewrite fetch_and_store_run.
  split; [reflexivity|]. split; [reflexivity|].
  destruct (w response (Fetch data_url)) as [res|e] eqn:Hw; simpl.
  - split; [reflexivity|]. split.
    + intros Hin. apply list_elem_of_singleton in Hin. discriminate.
    + intros res' [= ->]. reflexivity.
  - split; [reflexivity|]. split.
    + intros Hin. apply list_elem_of_singleton in Hin. discriminate.
    + intros res' [=].
Qed.

Lemma effect_stores_raw_response_witness :
  final (run sample_world (body fetch_and_store tt) (VArr []))
  = VResponse sample_response.
Proof.
  destruct (effect_stores_raw_response None sample_world (VArr []))
    as (_ & _ & _ & _ & H).
  apply H. reflexivity.
Defined.

(** By contrast [fetchDataFromAPI], of the last example, does parse: it
    calls [json()] and returns what that resolves with. *)
Lemma fetchDataFromAPI_parses (w : world) (res : response) (parsed : value) :
  w _ (Fetch data_url) = Resolved res →
  w _ (Json res) = Resolved parsed →
  run w (body (@fetchDataFromAPI unit) tt) tt =
    Outcome tt [OpFetch data_url; OpJson] [] (Ok (RValue parsed)).
Proof. intros Hf Hj. simpl. rewrite Hf. simpl. rewrite Hj. reflexivity. Qed.

(** ** The two counters *)

(** C9: the button of the useState example and the button of the useReducer
    example carry their click handler (set the count to [count + 1];
    dispatch [increment]) under the property name [onclick], and have no
    property named [onClick]. *)
Theorem buttons_use_lowercase_onclick (cell : option number)
  (cell' : option counter) :
  (∃ count e h,
      returns (UseStateExample cell) = Ok (count, e)
      ∧ assoc "onclick" (attrs_of e) = Some (AHandler h)
      ∧ assoc "onClick" (attrs_of e) = None
      ∧ ∀ w ev s, final (run w (body h ev) s) = js_add count (js_lit 1))
  ∧ (∃ state e h,
      returns (UseReducerExample cell') = Ok (state, e)
      ∧ assoc "onclick" (attrs_of e) = Some (AHandler h)
      ∧ assoc "onClick" (attrs_of e) = None
      ∧ ∀ w ev s,
          final (run w (body h ev) s) = reducer s {| type := "increment" |}).
Proof.
  split; do 3 eexists; (split; [reflexivity|]);
    repeat split; reflexivity.
Qed.

(** React DOM listens to [onClick], not to [onclick]: neither button has a
    handler attached. *)
Lemma lowercase_onclick_not_attached (cell : option number)
  (cell' : option counter) :
  (∀ count e, returns (UseStateExample cell) = Ok (count, e) →
              listeners e = [])
  ∧ (∀ state e, returns (UseReducerExample cell') = Ok (state, e) →
                listeners e = []).
Proof.
  split; intros ? ? [= <- <-]; reflexivity.
Qed.

(** ** The placeholder *)

Ltac case_render :=
  repeat match goal with
  | |- context [response_items ?v] => destruct (response_items v)
  | |- context [get_prop ?v ?k] => destruct (get_prop v k)
  | |- context [bool_decide ?P] => destruct (bool_decide P)
  | |- context [truthy ?v] => destruct (truthy v)
  | c : option _ |- _ => destruct c
  | c : (_ * _)%type |- _ => destruct c
  | c : memo_cells |- _ => destruct c
  | c : callback_cells |- _ => destruct c
  | c : deferred_cells |- _ => destruct c
  | c : bool |- _ => destruct c
  | c : promise _ |- _ => destruct c
  | c : promise_status |- _ => destruct c
  end.

(** Every render of a component calls exactly the hooks its body lists,
    whatever its cells hold and however it ends. *)
Lemma render_hooks (n : name) (props : Props (the_component n))
  (cells : option (Cells (the_component n))) (amb : ambient) :
  hooks_called (trace (render (the_component n) props cells amb)) = hooks_of n.
Proof.
  destruct n; simpl in *;
    unfold trace, UseEffectExample, UseLayoutEffectExample, UseRefExample,
      UseMemoExample, UseCallbackExample, UseIdExample, MyComponent,
      useMemo, useCallback, use, promise_of_call;
    repeat (cbn; progress case_render); reflexivity.
Qed.

(** C7: the external-store example has no logic: whatever props, cells and
    surroundings it is rendered with, it calls no hook and returns the one
    element [<div>useSyncExternalStore Example</div>]; and the file never
    calls [useSyncExternalStore]: no render of any of its components does,
    and the name is neither imported nor used by any declaration. *)
Theorem UseSyncExternalStoreExample_is_a_placeholder :
  UseSyncExternalStoreExample =
    ([], Ok (tt, Tag "div" [] [Text "useSyncExternalStore Example"]))
  ∧ (∀ props cells amb,
       render (the_component N_UseSyncExternalStoreExample) props cells amb =
         ([], Ok (tt, Tag "div" [] [Text "useSyncExternalStore Example"])))
  ∧ (∀ n props cells amb,
       HuseSyncExternalStore ∉
         hooks_called (trace (render (the_component n) props cells amb)))
  ∧ ("useSyncExternalStore" ∉ react_imports)
  ∧ Forall (λ d, "useSyncExternalStore" ∉ refers_to d) declarations.
Proof.
  split; [reflexivity|]. split; [reflexivity|]. split.
  { intros n props cells amb. rewrite render_hooks.
    destruct n; simpl; rewrite list_elem_of_In; simpl; intuition congruence. }
  split.
  { apply (bool_decide_unpack _). vm_compute. exact I. }
  apply (bool_decide_unpack _). vm_compute. exact I.
Qed.

(** ** One state value per component *)

(** C8: no render of a component of the file calls more than one of the
    hooks that create a state value ([useState], [useReducer], [useRef]). *)
Theorem at_most_one_state_value (n : name) (props : Props (the_component n))
  (cells : option (Cells (the_component n))) (amb : ambient) :
  (state_values
     (hooks_called (trace (render (the_component n) props cells amb))) ≤ 1)%nat.
Proof.
  rewrite render_hooks. destruct n; vm_compute; lia.
Qed.

(** ** The theme context *)

Lemma ChildComponentContext_shows {S : Type} (provided : gmap string string) :
  ChildComponentContext (S := S) provided =
    ([HookCall HuseContext],
     Ok (Tag "p" []
           [Text "Current theme: ";
            Text (default "light" (provided !! "ThemeContext"))])).
Proof. reflexivity. Qed.

Lemma UseContextExample_tree (outer : gmap string string) (extra : nat) :
  render_tree (5 + extra) outer UseContextExample =
    Some ([HookCall HuseContext],
          Ok (Tag "div" []
                [Tag "h1" [] [Text "useContext Example"];
                 Items [Tag "p" [] [Text "Current theme: "; Text "dark"]]])).
Proof.
  unfold render_tree, UseContextExample. cbn.
  unfold useContext. cbn. rewrite lookup_insert_eq. reflexivity.
Qed.

(** C5: [ChildComponentContext] shows the theme it reads with
    [useContext(ThemeContext)]: rendered by [UseContextExample], under its
    provider, the text is [dark], whatever is provided further out; rendered
    where nothing provides the context, the text is the default [light]. *)
Theorem theme_reaches_the_descendant (outer : gmap string string)
  (extra : nat) :
  trace (ChildComponentContext (S := unit) outer) = [HookCall HuseContext]
  ∧ render_tree (5 + extra) outer UseContextExample =
      Some ([HookCall HuseContext],
            Ok (Tag "div" []
                  [Tag "h1" [] [Text "useContext Example"];
                   Items [Tag "p" [] [Text "Current theme: "; Text "dark"]]]))
  ∧ (outer !! context_id ThemeContext = None →
     returns (ChildComponentContext (S := unit) outer) =
       Ok (Tag "p" [] [Text "Current theme: "; Text "light"])).
Proof.
  split; [reflexivity|]. split; [apply UseContextExample_tree|].
  intros Hnone. rewrite ChildComponentContext_shows.
  change (context_id ThemeContext) with "ThemeContext" in Hnone.
  rewrite Hnone. reflexivity.
Qed.

Lemma theme_reaches_the_descendant_witness :
  returns (ChildComponentContext (S := unit) ∅) =
    Ok (Tag "p" [] [Text "Current theme: "; Text "light"]).
Proof.
  destruct (theme_reaches_the_descendant ∅ 0) as (_ & _ & H).
  apply H. reflexivity.
Defined.

(** ** Independence of the examples *)

Lemma declarations_self_contained :
  Forall (λ d, self_contained d = true) declarations.
Proof. repeat constructor. Qed.

Lemma response_items_are_hosts {S : Type} (v : value) (l : list (element S)) :
  response_items v = Ok l → flat_map rendered_components l = [].
Proof.
  unfold response_items.
  destruct (get_prop v Kdata) as [d|]; cbn; [|done].
  destruct d; cbn; try done.
  revert l. induction items as [|item items IH]; intros l; cbn.
  - by intros [= <-].
  - destruct (get_prop item Kname) as [name|]; cbn; [|done].
    destruct (mapM _ items) as [l'|] eqn:Hl'; cbn; [|done].
    intros [= <-]. cbn. by apply IH.
Qed.

(** A component element in what a component returns names a component of
    the same example. *)
Lemma renders_within_example (n : name) (props : Props (the_component n))
  (cells : option (Cells (the_component n))) (amb : ambient)
  (t : list (event (State (the_component n))))
  (cells' : Cells (the_component n)) (e : element (State (the_component n)))
  (n' : name) :
  render (the_component n) props cells amb = (t, Ok (cells', e)) →
  n' ∈ rendered_components e →
  example_of n' = example_of n.
Proof.
  destruct n; simpl in *;
    unfold UseEffectExample, UseLayoutEffectExample, UseRefExample,
      UseMemoExample, UseCallbackExample, UseIdExample, MyComponent,
      UseTransitionExample, useMemo, useCallback, use, promise_of_call;
    cbn;
    try match goal with
    | |- context [response_items ?v] =>
        let H := fresh "Hitems" in
        destruct (response_items v) eqn:H;
        [apply response_items_are_hosts in H|]
    end;
    repeat (cbn; progress case_render); cbn;
    intros Heq; inversion Heq; subst; clear Heq;
    cbn; rewrite ?app_nil_r, ?Hitems; rewrite list_elem_of_In; cbn;
    intuition (subst; reflexivity).
Qed.

Lemma store_other (n n' : name) (c : option (Cells (the_component n)))
  (m : memory) :
  n ≠ n' → store n c m n' = m n'.
Proof. intros Hne. unfold store. destruct (decide (n = n')); done. Qed.

Lemma store_same (n : name) (c : option (Cells (the_component n)))
  (m : memory) :
  store n c m n = c.
Proof.
  unfold store. destruct (decide (n = n)) as [e|]; [|done].
  by rewrite (proof_irrel e eq_refl).
Qed.

(** Only the components of the useContext example look at the contexts
    provided around them. *)
Lemma render_ignores_contexts (n : name) (props : Props (the_component n))
  (cells : option (Cells (the_component n))) (amb : ambient)
  (other : gmap string string) :
  example_of n ≠ 10%nat →
  render (the_component n) props cells
    {| provided := other; urgent := urgent amb; fresh_id := fresh_id amb |}
  = render (the_component n) props cells amb.
Proof. destruct n; simpl; intros H; solve [reflexivity | done]. Qed.

(** Within an example the declarations do work together: the useCallback
    example renders its [ChildComponent], the useContext example its
    [ChildComponentContext]. *)
Lemma helpers_rendered_by_their_example :
  (∀ cells t cells' e,
     UseCallbackExample cells = (t, Ok (cells', e)) →
     rendered_components e = [N_ChildComponent])
  ∧ (∀ t e, UseContextExample = (t, Ok e) →
            rendered_components e = [N_ChildComponentContext]).
Proof.
  split.
  - intros cells t cells' e. unfold UseCallbackExample, useCallback.
    repeat (cbn; progress case_render); cbn;
      intros Heq; inversion Heq; subst; reflexivity.
  - intros t e Heq. inversion Heq; subst. reflexivity.
Qed.

(** Read function by function the file is not a set of independent
    examples: [UseContextExample] uses [ChildComponentContext], and what
    [ChildComponentContext] shows depends on the provider
    [UseContextExample] puts around it. *)
Lemma functions_are_connected :
  ¬ functions_independent
  ∧ returns (ChildComponentContext (S := unit)
               (<[context_id ThemeContext := "dark"]> ∅))
    ≠ returns (ChildComponentContext (S := unit) ∅).
Proof.
  split; [|discriminate].
  intros H.
  specialize (H (Declaration "UseContextExample" 10
                   ["ThemeContext"; "ChildComponentContext"])
                (Declaration "ChildComponentContext" 10
                   ["useContext"; "ThemeContext"])).
  assert (Hne : Declaration "ChildComponentContext" 10
                  ["useContext"; "ThemeContext"]
                ≠ Declaration "UseContextExample" 10
                    ["ThemeContext"; "ChildComponentContext"])
    by discriminate.
  apply Hne, H; apply list_elem_of_In; cbn; tauto.
Qed.

(** C6, as amended: the numbered examples are independent of one another.
    An identifier used by a declaration is bound by React, by the platform
    or under the same numbered example; the component elements a render
    returns name components of the same example; a render reads the cells
    of its own component only, so that a handler fired in one component
    leaves the render of every other component as it was; and the one
    context of the file is read within its own example only. *)
Theorem examples_are_independent :
  Forall (λ d, self_contained d = true) declarations
  ∧ (∀ n props cells amb t cells' e n',
       render (the_component n) props cells amb = (t, Ok (cells', e)) →
       n' ∈ rendered_components e →
       example_of n' = example_of n)
  ∧ (∀ n n' h ev w (m : memory) props amb,
       n ≠ n' →
       render_in (fire n h ev w m) n' props amb = render_in m n' props amb)
  ∧ (∀ n props cells amb other,
       example_of n ≠ 10%nat →
       render (the_component n) props cells
         {| provided := other; urgent := urgent amb;
            fresh_id := fresh_id amb |}
       = render (the_component n) props cells amb).
Proof.
  split; [apply declarations_self_contained|].
  split; [apply renders_within_example|].
  split.
  { intros n n' h ev w m props amb Hne. unfold render_in, fire.
    rewrite store_other; [reflexivity|done]. }
  apply render_ignores_contexts.
Qed.

Lemma examples_are_independent_witness :
  example_of N_ChildComponent = example_of N_UseCallbackExample
  ∧ render_in
      (fire N_UseMemoExample
         (Func SyncFn (λ _, setState (js_lit 7) (Return VUndefined)))
         (DomEvent "") sample_world sample_memory)
      N_UseCallbackExample VUndefined sample_ambient
    = render_in sample_memory N_UseCallbackExample VUndefined sample_ambient
  ∧ render (the_component N_UseMemoExample) VUndefined None
      {| provided := {[ "ThemeContext" := "dark" ]};
         urgent := urgent sample_ambient;
         fresh_id := fresh_id sample_ambient |}
    = render (the_component N_UseMemoExample) VUndefined None sample_ambient.
Proof.
  destruct examples_are_independent as (_ & Hcalls & Hfire & Hctx).
  split.
  { eapply (Hcalls N_UseCallbackExample VUndefined None sample_ambient).
    - reflexivity.
    - cbn. rewrite list_elem_of_In. cbn. left. reflexivity. }
  split.
  { apply Hfire. discriminate. }
  apply Hctx. cbn. lia.
Defined.

(** ** The memoized double *)

Lemma UseMemoExample_render (cells : option memo_cells) :
  (∀ m, cells = Some m → cache_sound m) →
  let count := default (js_lit 0) (memo_count <$> cells) in
  ∃ t,
    UseMemoExample cells =
      (t,
       Ok ({| memo_count := count;
              memo_cache := ([count], js_mul count (js_lit 2)) |},
           Tag "div" []
             [Tag "h1" [] [Text "useMemo Example"];
              Tag "p" []
                [Text "Computed Value: "; Num (js_mul count (js_lit 2))];
              Tag "button"
                [("onClick",
                  AHandler (Func SyncFn (λ _,
                    setState (js_add count (js_lit 1)) (Return VUndefined))))]
                [Text "Increment"]])).
Proof.
  intros Hsound count. subst count.
  destruct cells as [[c [d v]]|]; unfold UseMemoExample, useMemo; cbn.
  - destruct (bool_decide_reflect (d = [c])) as [->|Hne]; cbn.
    + specialize (Hsound _ eq_refl c eq_refl). cbn in Hsound. subst v.
      eexists. reflexivity.
    + eexists. reflexivity.
  - eexists. reflexivity.
Qed.

(** The calculation runs again only when the count is not the one the
    cache was computed from. *)
Lemma UseMemoExample_recomputes_on_change (c d v : number) :
  printed (trace (UseMemoExample
                    (Some {| memo_count := c; memo_cache := ([d], v) |})))
  = if bool_decide (d = c) then [] else ["Computing..."].
Proof.
  unfold UseMemoExample, useMemo, trace. cbn.
  destruct (bool_decide_reflect (d = c)) as [->|Hne].
  - rewrite bool_decide_eq_true_2 by reflexivity. reflexivity.
  - rewrite bool_decide_eq_false_2 by congruence. reflexivity.
Qed.

(** Every memory the useMemo example goes through has a sound cache. *)
Lemma reachable_cache_sound (props : value) (cells : memo_cells) :
  reachable (the_component N_UseMemoExample) props cells → cache_sound cells.
Proof.
  induction 1 as [amb t cells e Hr
                 |amb t cells cells' e _ IH Hr
                 |amb t cells cells' e depth t' host h ev w _ IH Hr _ _].
  - change (UseMemoExample None = (t, Ok (cells, e))) in Hr.
    destruct (UseMemoExample_render None) as [t0 Heq]; [done|].
    rewrite Heq in Hr. injection Hr as _ <- _.
    intros n [= <-]. reflexivity.
  - change (UseMemoExample (Some cells) = (t, Ok (cells', e))) in Hr.
    destruct (UseMemoExample_render (Some cells)) as [t0 Heq].
    { by intros m [= <-]. }
    rewrite Heq in Hr. injection Hr as _ <- _.
    intros n [= <-]. reflexivity.
  - change (UseMemoExample (Some cells) = (t, Ok (cells', e))) in Hr.
    destruct (UseMemoExample_render (Some cells)) as [t0 Heq].
    { by intros m [= <-]. }
    rewrite Heq in Hr. injection Hr as _ <- _.
    intros n [= <-]. reflexivity.
Qed.

(** C10: whatever the count, with the cache an earlier render left (or
    none), the useMemo example shows [expensiveComputation(count)], which is
    [2 * count], and the handler of its Increment button sets the count to
    [count + 1], with the [*] and [+] of JavaScript numbers.  On an integer
    count [z] these are the integers [2 * z] and [z + 1] as long as they
    stay within [2 ^ 53] of zero. *)
Theorem memo_shows_double_of_count (cells : option memo_cells) :
  (∀ m, cells = Some m → cache_sound m) →
  ∃ t m e h,
    UseMemoExample cells = (t, Ok (m, e))
    ∧ memo_count m = default (js_lit 0) (memo_count <$> cells)
    ∧ returns (expensiveComputation (S := number) (memo_count m))
      = Ok (js_mul (js_lit 2) (memo_count m))
    ∧ descendant [1; 1]%nat e
      = Some (Num (js_mul (js_lit 2) (memo_count m)))
    ∧ (b ← descendant [2]%nat e; assoc "onClick" (attrs_of b))
      = Some (AHandler h)
    ∧ (∀ w ev s,
         final (run w (body h ev) s) = js_add (memo_count m) (js_lit 1))
    ∧ (∀ z, memo_count m = js_lit z → safe z → safe (2 * z) →
            js_mul (js_lit 2) (memo_count m) = js_lit (2 * z))
    ∧ (∀ z, memo_count m = js_lit z → safe z → safe (z + 1) →
            js_add (memo_count m) (js_lit 1) = js_lit (z + 1))
    ∧ cache_sound m.
Proof.
  intros Hsound.
  destruct (UseMemoExample_render cells Hsound) as [t Heq].
  do 4 eexists. split; [exact Heq|]. cbn.
  split; [reflexivity|].
  split; [by rewrite js_mul_comm|].
  split; [by rewrite js_mul_comm|].
  split; [reflexivity|].
  split; [reflexivity|].
  split.
  { intros z -> Hz Hz2. rewrite js_mul_comm, js_mul_exact.
    - f_equal. lia.
    - done.
    - split; lia.
    - by rewrite Z.mul_comm.
    - lia. }
  split.
  { intros z -> Hz Hz1. apply js_add_exact; [done|split; lia|done]. }
  intros n [= <-]. reflexivity.
Qed.

Lemma memo_shows_double_of_count_witness :
  ∃ t m e h,
    UseMemoExample
      (Some {| memo_count := js_lit 3;
               memo_cache := ([js_lit 2], js_lit 4) |})
      = (t, Ok (m, e))
    ∧ memo_count m = js_lit 3
    ∧ descendant [1; 1]%nat e = Some (Num (js_lit 6))
    ∧ (b ← descendant [2]%nat e; assoc "onClick" (attrs_of b))
      = Some (AHandler h)
    ∧ (∀ w ev s, final (run w (body h ev) s) = js_lit 4).
Proof.
  destruct (memo_shows_double_of_count
              (Some {| memo_count := js_lit 3;
                       memo_cache := ([js_lit 2], js_lit 4) |}))
    as (t & m & e & h & Heq & Hm & _ & Hshown & Hbutton & Hrun & Hdouble
        & Hsucc & _).
  { intros m [= <-] n [= <-]. vm_compute. reflexivity. }
  cbn in Hm.
  exists t, m, e, h. split; [exact Heq|]. split; [exact Hm|].
  split.
  { rewrite Hshown. rewrite (Hdouble 3 Hm); [reflexivity|split; lia..]. }
  split; [exact Hbutton|].
  intros w ev s. rewrite Hrun. apply (Hsucc 3 Hm); split; lia.
Defined.

(** On every memory the example can be in, the render shows twice the
    count. *)
Corollary reachable_memo_shows_double (props : value) (cells : memo_cells) :
  reachable (the_component N_UseMemoExample) props cells →
  ∃ t m e,
    UseMemoExample (Some cells) = (t, Ok (m, e))
    ∧ descendant [1; 1]%nat e
      = Some (Num (js_mul (memo_count cells) (js_lit 2))).
Proof.
  intros Hreach.
  destruct (UseMemoExample_render (Some cells)) as [t Heq].
  { intros m [= <-]. by eapply reachable_cache_sound. }
  do 3 eexists. split; [exact Heq|]. reflexivity.
Qed.

(** * Further properties of the examples *)

(** ** The reducer over a sequence of actions *)

Lemma reducer_on_integer (z : Z) (a : action) :
  safe (z - 1) → safe (z + 1) →
  reducer {| count := js_lit z |} a =
    {| count := js_lit (z
                        + (if String.eqb (type a) "increment" then 1 else 0)
                        - (if String.eqb (type a) "decrement" then 1 else 0)) |}.
Proof.
  intros Hlo Hhi.
  assert (Hz : safe z) by (destruct Hlo, Hhi; split; lia).
  unfold reducer.
  destruct (String.eqb_spec (type a) "increment") as [->|_]; cbn [count].
  - rewrite js_add_exact; [f_equal; f_equal; cbn; lia|done|split; lia|done].
  - destruct (String.eqb (type a) "decrement"); cbn [count].
    + rewrite js_sub_exact; [f_equal; f_equal; lia|done|split; lia|done].
    + f_equal. f_equal. lia.
Qed.

(** From an integer count, as long as the count cannot leave the integers
    within [2 ^ 53] of zero, the reducer over any actions in any order ends
    at the start plus the number of [increment]s minus the number of
    [decrement]s; actions of other types do not count. *)
Theorem reduce_all_counts (c : Z) (l : list action) :
  Z.abs c + Z.of_nat (length l) < 2 ^ 53 →
  reduce_all {| count := js_lit c |} l =
    {| count := js_lit (c + occurrences "increment" l
                          - occurrences "decrement" l) |}.
Proof.
  unfold reduce_all, occurrences. revert c.
  induction l as [|a l IH]; intros c Hc; cbn [fold_left List.filter].
  - cbn [length]. f_equal. f_equal. lia.
  - cbn [length] in Hc. rewrite Nat2Z.inj_succ in Hc.
    rewrite reducer_on_integer by (split; lia).
    rewrite IH.
    + f_equal. f_equal.
      destruct (String.eqb (type a) "increment"),
               (String.eqb (type a) "decrement");
        cbn [length]; lia.
    + destruct (String.eqb (type a) "increment"),
               (String.eqb (type a) "decrement"); lia.
Qed.

Lemma reduce_all_counts_witness :
  reduce_all {| count := js_lit 40 |}
    [{| type := "increment" |}; {| type := "reset" |};
     {| type := "increment" |}; {| type := "decrement" |}]
  = {| count := js_lit 41 |}.
Proof.
  apply (reduce_all_counts 40
           [{| type := "increment" |}; {| type := "reset" |};
            {| type := "increment" |}; {| type := "decrement" |}]).
  cbn. lia.
Defined.

(** On an integer count away from the ends of the safe integers,
    [increment] and [decrement] undo each other, in either order. *)
Theorem reducer_increment_decrement_cancel (z : Z) :
  safe (z - 1) → safe (z + 1) →
  reducer (reducer {| count := js_lit z |} {| type := "increment" |})
    {| type := "decrement" |} = {| count := js_lit z |}
  ∧ reducer (reducer {| count := js_lit z |} {| type := "decrement" |})
      {| type := "increment" |} = {| count := js_lit z |}.
Proof.
  intros Hlo Hhi.
  assert (Hz : safe z) by (destruct Hlo, Hhi; split; lia).
  rewrite !reducer_increment, !reducer_decrement. cbn [count]. split.
  - rewrite js_add_exact, js_sub_exact; try done; try (split; lia).
    + f_equal. f_equal. lia.
    + by replace (z + 1 - 1) with z by lia.
  - rewrite js_sub_exact, js_add_exact; try done; try (split; lia).
    + f_equal. f_equal. lia.
    + by replace (z - 1 + 1) with z by lia.
Qed.

Lemma reducer_increment_decrement_cancel_witness :
  reducer (reducer {| count := js_lit 9 |} {| type := "increment" |})
    {| type := "decrement" |} = {| count := js_lit 9 |}
  ∧ reducer (reducer {| count := js_lit 9 |} {| type := "decrement" |})
      {| type := "increment" |} = {| count := js_lit 9 |}.
Proof.
  apply (reducer_increment_decrement_cancel 9); split; lia.
Defined.

(** ** Handlers that close over the rendered count *)

(** The handler of the useState example writes the count its render saw
    plus one: run twice before the next render it still leaves [count + 1].
    The handler of the useReducer example dispatches, and each run adds one
    to the state it finds: run twice on an integer [z] with [z + 2] within
    [2 ^ 53] of zero, it leaves [z + 2]. *)
Theorem handlers_run_twice (cell : option number) (cell' : option counter) :
  (∃ c e h,
      returns (UseStateExample cell) = Ok (c, e)
      ∧ handler_at [] "onclick" e = Some h
      ∧ ∀ w ev ev' s,
          final (run w (body h ev') (final (run w (body h ev) s)))
          = js_add c (js_lit 1))
  ∧ (∃ st e h,
      returns (UseReducerExample cell') = Ok (st, e)
      ∧ handler_at [] "onclick" e = Some h
      ∧ (∀ w ev ev' s,
           count (final (run w (body h ev') (final (run w (body h ev) s))))
           = js_add (js_add (count s) (js_lit 1)) (js_lit 1))
      ∧ (∀ w ev ev' z,
           safe z → safe (z + 2) →
           final (run w (body h ev')
                    (final (run w (body h ev) {| count := js_lit z |})))
           = {| count := js_lit (z + 2) |})).
Proof.
  split; do 3 eexists; (split; [reflexivity|]); (split; [reflexivity|]).
  - reflexivity.
  - split; [reflexivity|].
    intros w ev ev' z Hz Hz2. cbn.
    rewrite !js_add_exact; try done; try (destruct Hz, Hz2; split; lia).
    f_equal. f_equal. lia.
Qed.

Lemma handlers_run_twice_witness :
  ∃ st e h,
    returns (UseReducerExample None) = Ok (st, e)
    ∧ handler_at [] "onclick" e = Some h
    ∧ final (run sample_world (body h (DomEvent ""))
               (final (run sample_world (body h (DomEvent ""))
                         {| count := js_lit 0 |})))
      = {| count := js_lit 2 |}.
Proof.
  destruct (handlers_run_twice None None)
    as (_ & st & e & h & Hr & Hh & _ & Hint).
  exists st, e, h. split; [exact Hr|]. split; [exact Hh|].
  apply (Hint sample_world (DomEvent "") (DomEvent "") 0); split; lia.
Defined.

(** ** The fetching examples after their effect *)

(** The effect does not repair the render.  Whatever the network answers,
    rendering the useEffect or the useLayoutEffect example with the state
    the effect leaves (the [Response], or the empty array when the fetch
    failed) throws the [TypeError] of the first render again. *)
Theorem render_after_effect_still_throws (w : world) :
  let after := final (run w (body fetch_and_store tt) (VArr [])) in
  returns (UseEffectExample (Some after)) = Throw (TypeError_read "map")
  ∧ returns (UseLayoutEffectExample (Some after))
    = Throw (TypeError_read "map").
Proof.
  cbn zeta. rewrite fetch_and_store_run.
  destruct (w response (Fetch data_url)); split; reflexivity.
Qed.

(** When the fetch fails, the callback ends there: the state is as it was,
    nothing else was asked of the network, and the promise of the callback
    is rejected with the reason of the fetch. *)
Theorem effect_on_failed_fetch (w : world) (s : value) (e : error) :
  w _ (Fetch data_url) = Rejected e →
  run w (body fetch_and_store tt) s
  = Outcome s [OpFetch data_url] [] (Throw e).
Proof. intros H. rewrite fetch_and_store_run, H. reflexivity. Qed.

Lemma effect_on_failed_fetch_witness :
  run failing_world (body fetch_and_store tt) (VArr [])
  = Outcome (VArr []) [OpFetch data_url] [] (Throw FetchFailed).
Proof. apply (effect_on_failed_fetch failing_world). reflexivity. Defined.

(** ** [fetchDataFromAPI] *)

(** [fetchDataFromAPI] writes no state; it asks for [json()] only once the
    fetch has resolved, of the response the fetch gave; it returns what
    [json()] resolves with, and fails with the reason of whichever of the
    two failed. *)
Theorem fetchDataFromAPI_outcome {S : Type} (w : world) (s : S) :
  let o := run w (body fetchDataFromAPI tt) s in
  final o = s
  ∧ console o = []
  ∧ match w _ (Fetch data_url) with
    | Rejected e => ops o = [OpFetch data_url] ∧ completion o = Throw e
    | Resolved res =>
        ops o = [OpFetch data_url; OpJson]
        ∧ completion o =
            match w _ (Json res) with
            | Resolved parsed => Ok (RValue parsed)
            | Rejected e => Throw e
            end
    end.
Proof.
  cbn. destruct (w response (Fetch data_url)) as [res|e]; cbn.
  - destruct (w value (Json res)); cbn; repeat split; reflexivity.
  - repeat split; reflexivity.
Qed.

(** ** The list of the fetching examples *)

Lemma mapM_Ok {A B : Type} (f : A → result B) (l : list A) (l' : list B) :
  mapM f l = Ok l' ↔ Forall2 (λ a b, f a = Ok b) l l'.
Proof.
  revert l'. induction l as [|a l IH]; intros l'; cbn.
  - split.
    + intros [= <-]. constructor.
    + intros H. inversion H. reflexivity.
  - destruct (f a) as [b|e] eqn:Hfa; cbn.
    + destruct (mapM f l) as [bs|e] eqn:Hl; cbn.
      * split.
        -- intros [= <-]. constructor; [exact Hfa|]. by apply IH.
        -- intros H. inversion H as [|? b' ? bs' Hb Hbs]; subst.
           rewrite Hfa in Hb. injection Hb as <-.
           apply IH in Hbs. by injection Hbs as <-.
      * split; [discriminate|].
        intros H. inversion H as [|? b' ? bs' Hb Hbs]; subst.
        apply IH in Hbs. discriminate.
    + split; [discriminate|].
      intros H. inversion H as [|? b' ? bs' Hb Hbs]; subst.
      rewrite Hfa in Hb. discriminate.
Qed.

Lemma get_prop_not_nullish (v : value) (k : key) :
  nullish v = false → ∃ x, get_prop v k = Ok x.
Proof. destruct v, k; cbn; intros H; try discriminate; eauto. Qed.

Lemma get_prop_nullish (v : value) (k : key) :
  nullish v = true → get_prop v k = Throw (TypeError_read (key_name k)).
Proof. destruct v; cbn; intros H; try discriminate; reflexivity. Qed.

(** [response.data.map(..)] gives a list exactly when [response.data] is an
    array none of whose items is [undefined] or [null]; the list then has
    one [<li>] per item, in the order of the array, showing the [name] of
    the item. *)
Theorem response_items_succeeds {S : Type} (v : value) (l : list (element S)) :
  response_items v = Ok l ↔
  ∃ items,
    get_prop v Kdata = Ok (VArr items)
    ∧ Forall2 (λ item li,
                 ∃ name, get_prop item Kname = Ok name
                         ∧ li = Tag "li" [] [Expr name]) items l.
Proof.
  unfold response_items.
  destruct (get_prop v Kdata) as [d|e]; cbn.
  2: { split; [discriminate|]. intros (items & [=] & _). }
  destruct d; cbn;
    try (split; [discriminate|]; intros (items' & [=] & _)).
  rewrite mapM_Ok. split.
  - intros H. exists items. split; [reflexivity|].
    eapply Forall2_impl; [exact H|]. cbn. intros item li Hli.
    destruct (get_prop item Kname) as [name|]; cbn in Hli; [|discriminate].
    injection Hli as <-. eauto.
  - intros (items' & [= <-] & H).
    eapply Forall2_impl; [exact H|]. cbn.
    intros item li (name & -> & ->). reflexivity.
Qed.

Lemma response_items_succeeds_witness :
  response_items (S := unit) (VObj [("data", VArr [VObj [("name", VStr "a")]])])
  = Ok [Tag "li" [] [Expr (VStr "a")]].
Proof.
  apply response_items_succeeds. eexists. split; [reflexivity|].
  constructor; [|constructor]. eexists. split; reflexivity.
Defined.

Lemma mapM_nullish_item {S : Type} (items : list value) :
  Exists (λ item, nullish item = true) items →
  mapM (λ item,
          name ← get_prop item Kname;
          mret (Tag (S := S) "li" [] [Expr name])) items
  = Throw (TypeError_read "name").
Proof.
  induction items as [|item items IH]; intros Hex.
  - inversion Hex.
  - cbn. destruct (nullish item) eqn:Hn.
    + rewrite (get_prop_nullish _ _ Hn). reflexivity.
    + destruct (get_prop_not_nullish item Kname Hn) as [x ->]. cbn.
      rewrite IH; [reflexivity|].
      inversion Hex as [? ? Hhd|? ? Htl]; subst; [congruence|exact Htl].
Qed.

(** How [response.data.map(..)] fails: reading [data] of [undefined] or
    [null]; reading [map] of a [data] that is [undefined] or [null]; calling
    the [map] of a [data] that is no array; reading [name] of an item that
    is [undefined] or [null]. *)
Theorem response_items_failures {S : Type} (v : value) :
  (nullish v = true →
   response_items (S := S) v = Throw (TypeError_read "data"))
  ∧ (∀ d, get_prop v Kdata = Ok d → nullish d = true →
          response_items (S := S) v = Throw (TypeError_read "map"))
  ∧ (∀ d, get_prop v Kdata = Ok d → nullish d = false →
          (∀ items, d ≠ VArr items) →
          response_items (S := S) v = Throw (TypeError_call "map"))
  ∧ (∀ items, get_prop v Kdata = Ok (VArr items) →
              Exists (λ item, nullish item = true) items →
              response_items (S := S) v = Throw (TypeError_read "name")).
Proof.
  unfold response_items. repeat split.
  - intros Hn. rewrite (get_prop_nullish _ _ Hn). reflexivity.
  - intros d -> Hn. destruct d; try discriminate; reflexivity.
  - intros d -> Hn Harr. destruct d; try discriminate; try reflexivity.
    by destruct (Harr items).
  - intros items -> Hex. cbn. by apply mapM_nullish_item.
Qed.

Lemma response_items_failures_witness :
  response_items (S := unit) VNull = Throw (TypeError_read "data")
  ∧ response_items (S := unit) (VObj [("data", VNull)])
    = Throw (TypeError_read "map")
  ∧ response_items (S := unit) (VObj [("data", VStr "text")])
    = Throw (TypeError_call "map")
  ∧ response_items (S := unit)
      (VObj [("data", VArr [VObj [("name", VStr "a")]; VNull])])
    = Throw (TypeError_read "name").
Proof.
  split.
  { apply (response_items_failures (S := unit) VNull). reflexivity. }
  split.
  { destruct (response_items_failures (S := unit) (VObj [("data", VNull)]))
      as (_ & H & _).
    apply (H VNull); reflexivity. }
  split.
  { destruct (response_items_failures (S := unit)
                (VObj [("data", VStr "text")])) as (_ & _ & H & _).
    apply (H (VStr "text")); [reflexivity|reflexivity|discriminate]. }
  destruct (response_items_failures (S := unit)
              (VObj [("data", VArr [VObj [("name", VStr "a")]; VNull])]))
    as (_ & _ & _ & H).
  eapply H; [reflexivity|]. right. left. reflexivity.
Defined.

(** ** The [use] example *)

(** [MyComponent] calls [fetchDataFromAPI] in its render and hands the
    promise to [use]: a render that is not a replay suspends on that
    promise.  Replayed once the promise has settled, the render shows the
    parsed data when it is truthy and the loading text when it is falsy
    ([0], the empty string, [null], [false]), and throws the reason when
    the fetch or [json()] failed. *)
Theorem MyComponent_shows (w : world) :
  MyComponent None =
    ([HookCall Huse; Awaiting (promise_of_call fetchDataFromAPI tt)],
     Throw SuspenseException)
  ∧ MyComponent_replayed w =
      ([HookCall Huse],
       match w _ (Fetch data_url) with
       | Rejected e => Throw e
       | Resolved res =>
           match w _ (Json res) with
           | Rejected e => Throw e
           | Resolved data =>
               Ok (tt,
                   Tag "div" []
                     [if truthy data then Tag "div" [] [Expr data]
                      else Tag "p" [] [Text "Loading..."]])
           end
       end)
  ∧ (∀ res data,
       w _ (Fetch data_url) = Resolved res →
       w _ (Json res) = Resolved data →
       data ∈ [VUndefined; VNull; VBool false; VNum (js_lit 0); VStr ""] →
       returns (MyComponent_replayed w)
       = Ok (tt, Tag "div" [] [Tag "p" [] [Text "Loading..."]]))
  ∧ (∀ res data,
       w _ (Fetch data_url) = Resolved res →
       w _ (Json res) = Resolved data →
       (∃ items, data = VArr items) ∨ (∃ fields, data = VObj fields) →
       returns (MyComponent_replayed w)
       = Ok (tt, Tag "div" [] [Tag "div" [] [Expr data]])).
Proof.
  assert (Hreplay :
    MyComponent_replayed w =
      ([HookCall Huse],
       match w _ (Fetch data_url) with
       | Rejected e => Throw e
       | Resolved res =>
           match w _ (Json res) with
           | Rejected e => Throw e
           | Resolved data =>
               Ok (tt,
                   Tag "div" []
                     [if truthy data then Tag "div" [] [Expr data]
                      else Tag "p" [] [Text "Loading..."]])
           end
       end)).
  { unfold MyComponent_replayed, MyComponent, use, settle. cbn.
    destruct (w response (Fetch data_url)) as [res|e]; cbn; [|reflexivity].
    destruct (w value (Json res)) as [data|e]; cbn; reflexivity. }
  split; [reflexivity|]. split; [exact Hreplay|]. split.
  - intros res data Hf Hj Hin. rewrite Hreplay, Hf, Hj. cbn.
    apply list_elem_of_In in Hin. cbn in Hin.
    destruct Hin as [<-|[<-|[<-|[<-|[<-|[]]]]]]; reflexivity.
  - intros res data Hf Hj Hshape. rewrite Hreplay, Hf, Hj. cbn.
    destruct Hshape as [[items ->]|[fields ->]]; reflexivity.
Qed.

Lemma MyComponent_shows_witness :
  returns (MyComponent_replayed zero_world)
  = Ok (tt, Tag "div" [] [Tag "p" [] [Text "Loading..."]])
  ∧ returns (MyComponent_replayed sample_world)
    = Ok (tt,
          Tag "div" []
            [Tag "div" [] [Expr (VArr [VNum (js_lit 1); VNum (js_lit 2)])]]).
Proof.
  split.
  - destruct (MyComponent_shows zero_world) as (_ & _ & H & _).
    eapply H; [reflexivity|reflexivity|].
    apply list_elem_of_In. cbn. tauto.
  - destruct (MyComponent_shows sample_world) as (_ & _ & _ & H).
    eapply H; [reflexivity|reflexivity|]. left. eexists. reflexivity.
Defined.

(** ** The useMemo example over its life *)

(** A render that follows a render, with the count unchanged, takes the
    value from the cache: it leaves the same cells, returns the same
    element, and does not run the calculation (nothing is printed). *)
Theorem UseMemoExample_render_again (cells : option memo_cells) :
  (∀ m, cells = Some m → cache_sound m) →
  ∃ t m e,
    UseMemoExample cells = (t, Ok (m, e))
    ∧ UseMemoExample (Some m)
      = ([HookCall HuseState; HookCall HuseMemo], Ok (m, e)).
Proof.
  intros Hsound.
  destruct (UseMemoExample_render cells Hsound) as [t Heq].
  do 3 eexists. split; [exact Heq|].
  unfold UseMemoExample, useMemo. cbn.
  rewrite bool_decide_eq_true_2 by reflexivity. reflexivity.
Qed.

Lemma UseMemoExample_render_again_witness :
  ∃ t m e,
    UseMemoExample
      (Some {| memo_count := js_lit 3;
               memo_cache := ([js_lit 2], js_lit 4) |})
      = (t, Ok (m, e))
    ∧ UseMemoExample (Some m)
      = ([HookCall HuseState; HookCall HuseMemo], Ok (m, e)).
Proof.
  apply (UseMemoExample_render_again
           (Some {| memo_count := js_lit 3;
                    memo_cache := ([js_lit 2], js_lit 4) |})).
  intros m [= <-] n [= <-]. vm_compute. reflexivity.
Defined.

(** The count after [n] increments from zero, in JavaScript numbers. *)
Lemma memo_click_cells (w : world) (c : number) :
  memo_click w {| memo_count := c;
                  memo_cache := ([c], js_mul c (js_lit 2)) |}
  = Some {| memo_count := js_add c (js_lit 1);
            memo_cache := ([js_add c (js_lit 1)],
                           js_mul (js_add c (js_lit 1)) (js_lit 2)) |}.
Proof.
  unfold memo_click.
  destruct (UseMemoExample_render
              (Some {| memo_count := c;
                       memo_cache := ([c], js_mul c (js_lit 2)) |}))
    as [t Heq].
  { intros m [= <-] k [= <-]. reflexivity. }
  unfold returns. rewrite Heq. cbn.
  destruct (UseMemoExample_render
              (Some {| memo_count := js_add c (js_lit 1);
                       memo_cache := ([c], js_mul c (js_lit 2)) |}))
    as [t' Heq'].
  { intros m [= <-] k [= <-]. reflexivity. }
  cbn in Heq'. rewrite Heq'. reflexivity.
Qed.

Lemma memo_after_cells (w : world) (n : nat) :
  Z.of_nat n < 2 ^ 53 →
  memo_after w n =
    Some {| memo_count := js_lit (Z.of_nat n);
            memo_cache := ([js_lit (Z.of_nat n)],
                           js_mul (js_lit (Z.of_nat n)) (js_lit 2)) |}.
Proof.
  induction n as [|n IH]; intros Hn.
  - reflexivity.
  - cbn [memo_after]. rewrite IH by lia. rewrite memo_click_cells.
    rewrite js_add_exact by (split; lia).
    replace (Z.of_nat n + 1) with (Z.of_nat (S n)) by lia.
    reflexivity.
Qed.

(** After the mount and [n] clicks on Increment, each followed by its
    render, with [2 * n] below [2 ^ 53], the count is [n] and the example
    shows [2 * n]. *)
Theorem memo_after_clicks (w : world) (n : nat) :
  2 * Z.of_nat n < 2 ^ 53 →
  ∃ m t m' e,
    memo_after w n = Some m
    ∧ memo_count m = js_lit (Z.of_nat n)
    ∧ UseMemoExample (Some m) = (t, Ok (m', e))
    ∧ descendant [1; 1]%nat e = Some (Num (js_lit (2 * Z.of_nat n))).
Proof.
  intros Hn. rewrite memo_after_cells by lia.
  destruct (UseMemoExample_render
              (Some {| memo_count := js_lit (Z.of_nat n);
                       memo_cache :=
                         ([js_lit (Z.of_nat n)],
                          js_mul (js_lit (Z.of_nat n)) (js_lit 2)) |}))
    as [t Heq].
  { intros m [= <-] k [= <-]. reflexivity. }
  do 4 eexists. split; [reflexivity|]. split; [reflexivity|].
  split; [exact Heq|]. cbn.
  rewrite js_mul_exact by (try split; lia).
  do 3 f_equal. lia.
Qed.

Lemma memo_after_clicks_witness :
  ∃ m t m' e,
    memo_after sample_world 3 = Some m
    ∧ memo_count m = js_lit 3
    ∧ UseMemoExample (Some m) = (t, Ok (m', e))
    ∧ descendant [1; 1]%nat e = Some (Num (js_lit 6)).
Proof.
  apply (memo_after_clicks sample_world 3). cbn. lia.
Defined.

(** Past the safe integers the count stops moving: a click at [2 ^ 53]
    leaves the count where it is. *)
Lemma memo_click_at_2_53 (w : world) :
  memo_click w {| memo_count := js_lit (2 ^ 53);
                  memo_cache := ([js_lit (2 ^ 53)],
                                 js_mul (js_lit (2 ^ 53)) (js_lit 2)) |}
  = Some {| memo_count := js_lit (2 ^ 53);
            memo_cache := ([js_lit (2 ^ 53)],
                           js_mul (js_lit (2 ^ 53)) (js_lit 2)) |}.
Proof.
  rewrite memo_click_cells.
  destruct beyond_the_safe_integers as [-> _]. reflexivity.
Qed.

(** ** The counters nobody can click *)

(** The buttons of the useState and of the useReducer example have their
    handler under [onclick], which React DOM does not listen to: no event
    reaches a handler, and on every memory either example goes through the
    count is the [0] it was mounted with. *)
Theorem counters_stay_at_zero :
  (∀ props cells,
     reachable (the_component N_UseStateExample) props cells →
     cells = js_lit 0)
  ∧ (∀ props cells,
       reachable (the_component N_UseReducerExample) props cells →
       count cells = js_lit 0).
Proof.
  split; intros props cells Hreach.
  - induction Hreach as [amb t cells e Hr
                        |amb t cells cells' e _ IH Hr
                        |amb t cells cells' e depth t' host h ev w _ IH Hr Hx Hin].
    + cbn in Hr. by injection Hr as _ <- _.
    + cbn in Hr. injection Hr as _ <- _. exact IH.
    + cbn in Hr. injection Hr as _ <- <-.
      destruct depth as [|[|depth]]; cbn in Hx; try discriminate.
      injection Hx as _ <-. cbn in Hin. by apply elem_of_nil in Hin.
  - induction Hreach as [amb t cells e Hr
                        |amb t cells cells' e _ IH Hr
                        |amb t cells cells' e depth t' host h ev w _ IH Hr Hx Hin].
    + cbn in Hr. by injection Hr as _ <- _.
    + cbn in Hr. injection Hr as _ <- _. exact IH.
    + cbn in Hr. injection Hr as _ <- <-.
      destruct depth as [|[|depth]]; cbn in Hx; try discriminate.
      injection Hx as _ <-. cbn in Hin. by apply elem_of_nil in Hin.
Qed.

Lemma counters_stay_at_zero_witness :
  reachable (the_component N_UseStateExample) VUndefined (js_lit 0)
  ∧ js_lit 0 = js_lit 0.
Proof.
  assert (Hr : reachable (the_component N_UseStateExample) VUndefined
                 (js_lit 0)).
  { eapply (reach_mount (the_component N_UseStateExample) VUndefined
              sample_ambient).
    reflexivity. }
  split; [exact Hr|].
  destruct counters_stay_at_zero as [H _].
  exact (H VUndefined (js_lit 0) Hr).
Defined.

(** ** The useDeferredValue example *)

(** What is typed into the input comes back as the [value] of the input on
    the next render, whatever was there before; the paragraph shows it in a
    deferred render, and still shows the text of the render before in an
    urgent one. *)
Theorem typed_text_reaches_the_input (w : world)
  (cells : option deferred_cells) (urgent urgent' : bool) (ev : dom_event) :
  ∃ m t m' e input,
    deferred_type w cells urgent ev = Some m
    ∧ deferred_input m = target_value ev
    ∧ UseDeferredValueExample (Some m) urgent' = (t, Ok (m', e))
    ∧ descendant [1%nat] e = Some input
    ∧ assoc "value" (attrs_of input) = Some (AStr (target_value ev))
    ∧ descendant [2; 1]%nat e
      = Some (Text (if urgent' then deferred_shown m else target_value ev)).
Proof.
  destruct cells as [[i d]|], urgent, urgent';
    do 5 eexists; repeat split; reflexivity.
Qed.

(** ** The useId example *)


(** ** The useRef example *)

(** The paragraph of the useRef example shows [current.value]: nothing
    while the ref holds a string, as on the first render, and the text of
    the input once it holds the input element.  The render throws only on a
    ref that holds [undefined] or [null], and never writes the ref. *)
Theorem UseRefExample_shows (cell : option value) :
  let current := default (VStr "") cell in
  (nullish current = true →
   returns (UseRefExample cell) = Throw (TypeError_read "value"))
  ∧ (nullish current = false →
     ∃ shown e,
       returns (UseRefExample cell) = Ok (current, e)
       ∧ get_prop current Kvalue = Ok shown
       ∧ descendant [2; 0]%nat e = Some (Expr shown)
       ∧ (∀ s, current = VStr s → shown = VUndefined)
       ∧ (∀ text, current = VInput text → shown = VStr text)).
Proof.
  cbn zeta. unfold UseRefExample. cbn. split.
  - intros Hn. rewrite (get_prop_nullish _ _ Hn). reflexivity.
  - intros Hn. destruct (get_prop_not_nullish _ Kvalue Hn) as [x Hx].
    rewrite Hx. cbn. do 2 eexists. repeat split.
    + intros s Hs. rewrite Hs in Hx. by injection Hx as <-.
    + intros text Hs. rewrite Hs in Hx. by injection Hx as <-.
Qed.

Lemma UseRefExample_shows_witness :
  returns (UseRefExample (Some VNull)) = Throw (TypeError_read "value")
  ∧ ∃ shown e,
      returns (UseRefExample (Some (VInput "typed")))
        = Ok (VInput "typed", e)
      ∧ get_prop (VInput "typed") Kvalue = Ok shown
      ∧ descendant [2; 0]%nat e = Some (Expr shown)
      ∧ (∀ s, VInput "typed" = VStr s → shown = VUndefined)
      ∧ (∀ text, VInput "typed" = VInput text → shown = VStr text).
Proof.
  split.
  - apply (UseRefExample_shows (Some VNull)). reflexivity.
  - apply (UseRefExample_shows (Some (VInput "typed"))). reflexivity.
Defined.
